(** * Scene construction and rebuild pipeline of the ANARI DRR viewer

    The scene code of [viewer.cpp]: [Application::setupWindows] from the
    creation of the world object to the commit of the world (l.258-402),
    the lambda registered with [setUpdateLacLutCallback] (l.452-541) and
    [Application::teardown] (l.579-585).  Every ANARI call of the source
    is one step of a state monad over the device and the application
    state, in source order. *)

From Stdlib Require Import ZArith NArith String.
From Stdlib Require Import Floats.PrimFloat.
From stdpp Require Import gmap strings list fin_maps.

(** ** Host data *)

(** A C++ [float].  The scene code only copies floats, it never computes
    with them, and every binary32 value is a binary64 value, so the
    primitive floats stand for them. *)
Definition float32 : Type := PrimFloat.float.

(** [anari::math::float3]. *)
Record float3 : Type := Float3 { f3_x : float32; f3_y : float32; f3_z : float32 }.

(** Modelled from the spec: [StructuredField], whose header FieldTypes.h
    is missing.  The record has the members [viewer.cpp] reads, with the
    types their uses need: [int] extents, an unsigned byte width, one
    buffer per element kind and the observed range [dataRange.x],
    [dataRange.y]. *)
Record StructuredField : Type := mkStructuredField {
  dataUI8 : list N;
  dataUI16 : list N;
  dataF32 : list float32;
  dimX : Z;
  dimY : Z;
  dimZ : Z;
  bytesPerCell : N;
  dataRange : float32 * float32
}.

(** A default-constructed [StructuredField] (the member [AppState::sdata]
    before the first assignment). *)
Definition emptyField : StructuredField :=
  mkStructuredField [] [] [] 0 0 0 0 (0%float, 0%float).

(** Implicit conversion of an [int] argument to a [uint64_t] parameter. *)
Definition uint64_of_int (z : Z) : N := Z.to_N (z mod 2 ^ 64).

(** ** The state monad *)

Definition St (S A : Type) : Type := S → A * S.

#[global] Instance St_ret {S} : MRet (St S) := λ A a s, (a, s).
#[global] Instance St_bind {S} : MBind (St S) :=
  λ A B f m s, let '(a, s') := m s in f a s'.

Definition gets {S A} (f : S → A) : St S A := λ s, (f s, s).
Definition modify {S} (f : S → S) : St S unit := λ s, (tt, f s).
Definition exec {S A} (m : St S A) (s : S) : S := (m s).2.

(** ** The rendering API *)

(** The rendering library is external.  Its five primitives the scene
    code uses are modelled after their contract: object creation, array
    creation over application memory, set-parameter, commit-parameters
    (which makes the parameters set so far the active ones) and release
    (which drops a reference).  The device keeps, for every object, the
    application's reference count, the parameters set so far and the
    parameters as of the last commit; an array keeps the contents the
    application memory had when it was created.  The device also keeps
    the list of the calls it received, oldest first. *)
Module anari.

(** An opaque handle; 0 is the null handle. *)
Abbreviation Object := N.
Definition nullptr : Object := 0%N.

Inductive DataType : Type :=
| ANARI_UFIXED8 | ANARI_UFIXED16 | ANARI_FLOAT32 | ANARI_FLOAT32_VEC3
| ANARI_FLOAT32_BOX1 | ANARI_STRING
| ANARI_WORLD | ANARI_SPATIAL_FIELD | ANARI_VOLUME
| ANARI_ARRAY1D | ANARI_ARRAY3D.

(** The application memory an array is created over. *)
Inductive memory : Type :=
| MemUI8 (l : list N)
| MemUI16 (l : list N)
| MemF32 (l : list float32)
| MemFloat3 (l : list float3)
| MemObjects (l : list Object).

Inductive objectKind : Type :=
| World
| SpatialField (subtype : string)
| Volume (subtype : string)
| Array1D (appMemory : memory) (elementType : DataType) (numItems1 : N)
| Array3D (appMemory : memory) (elementType : DataType)
          (numItems1 numItems2 numItems3 : N).

(** A parameter value: an object handle with its type tag, a string or
    a [float[2]] box. *)
Inductive value : Type :=
| VObject (type : DataType) (h : Object)
| VString (s : string)
| VBox1 (lower upper : float32).

Record object : Type := mkObject {
  kind : objectKind;
  refCount : N;
  params : gmap string value;
  committed : gmap string value
}.

Inductive call : Type :=
| NewObject (h : Object) (k : objectKind)
| SetParameter (o : Object) (name : string) (v : value)
| CommitParameters (o : Object)
| Release (h : Object).

Record Device : Type := mkDevice {
  nextHandle : N;
  objects : gmap N object;
  calls : list call;
  deviceReleased : bool
}.

(** The device [initializeANARI] hands over: no object yet. *)
Definition newDevice : Device := mkDevice 1 ∅ [] false.

Definition set_param (name : string) (v : value) (o : object) : object :=
  mkObject (kind o) (refCount o) (<[name := v]> (params o)) (committed o).

Definition commit (o : object) : object :=
  mkObject (kind o) (refCount o) (params o) (params o).

Definition unref (o : object) : object :=
  mkObject (kind o) (N.pred (refCount o)) (params o) (committed o).

(** Creation (of an object or of an array, which is an object too)
    returns a fresh handle that carries the one reference of the
    application. *)
Definition create (k : objectKind) : St Device Object :=
  λ d, let h := nextHandle d in
       (h, mkDevice (N.succ h) (<[h := mkObject k 1 ∅ ∅]> (objects d))
                    (calls d ++ [NewObject h k]) (deviceReleased d)).

Definition setParameter (o : Object) (name : string) (v : value)
  : St Device unit :=
  λ d, (tt, mkDevice (nextHandle d) (alter (set_param name v) o (objects d))
                     (calls d ++ [SetParameter o name v]) (deviceReleased d)).

Definition commitParameters (o : Object) : St Device unit :=
  λ d, (tt, mkDevice (nextHandle d) (alter commit o (objects d))
                     (calls d ++ [CommitParameters o]) (deviceReleased d)).

(** Release drops one reference of the application; on a handle that
    names no object the call is only recorded. *)
Definition release (h : Object) : St Device unit :=
  λ d, (tt, mkDevice (nextHandle d) (alter unref h (objects d))
                     (calls d ++ [Release h]) (deviceReleased d)).

(** [anari::setAndReleaseParameter]: set, then release the handle. *)
Definition setAndReleaseParameter (o : Object) (name : string)
    (type : DataType) (h : Object) : St Device unit :=
  setParameter o name (VObject type h);; release h.

(** The number of elements of an array. *)
Definition numItems (k : objectKind) : N :=
  match k with
  | Array1D _ _ n => n
  | Array3D _ _ n1 n2 n3 => n1 * n2 * n3
  | _ => 0
  end.

(** [anari::release(device, device)]. *)
Definition releaseDevice : St Device unit :=
  λ d, (tt, mkDevice (nextHandle d) (objects d) (calls d) true).

End anari.
Export anari.

(** ** The voxel sources *)

(** Modelled from the spec: the readers [RAWReader], [NiftiReader] and
    [LacReader], whose headers readRAW.h, readNifti.h and LacTransform.h
    are missing.  Their state is opaque and their operations are the
    ones [viewer.cpp] calls, with the result types it uses them at:
    [open] answers whether the file could be opened, [getField] returns
    a [StructuredField], the lookup-table catalog has a mutable active
    index.  A call may change the reader it is made on. *)
Class VoxelSources : Type := {
  LacReader : Type;
  NiftiReader : Type;
  RAWReader : Type;
  newLacReader : LacReader;
  newNiftiReader : NiftiReader;
  newRAWReader : RAWReader;
  lac_setFilename : string → LacReader → LacReader;
  lac_read : LacReader → LacReader;
  lac_setActiveLut : N → LacReader → LacReader;
  raw_open : string → Z → Z → Z → N → RAWReader → bool * RAWReader;
  raw_getField : Z → RAWReader → StructuredField * RAWReader;
  nifti_open : string → NiftiReader → bool * NiftiReader;
  nifti_getField : Z → LacReader → NiftiReader → StructuredField * NiftiReader
}.

(** ** Application state *)

(** The file-scope variables the scene code reads; [g_voxelRange] is the
    only one it writes. *)
Record Globals : Type := mkGlobals {
  g_filename : string;
  g_dimX : Z;
  g_dimY : Z;
  g_dimZ : Z;
  g_bytesPerCell : N;
  g_voxelRange : float32 * float32;
  g_laclutfile : string;
  g_laclutid : N
}.

Section Viewer.
Context `{VS : VoxelSources}.

(** [struct AppState], without the camera, the predictions and the
    images, which the scene code does not touch. *)
Record AppState : Type := mkAppState {
  world : Object;
  field : Object;
  sdata : StructuredField;
  lacReader : LacReader;
  niftiReader : NiftiReader;
  rawReader : RAWReader
}.

Record Machine : Type := mkMachine {
  device : Device;
  m_state : AppState;
  globals : Globals
}.

Definition App (A : Type) : Type := St Machine A.

(** A call on [g_device]. *)
Definition onDevice {A} (m : St Device A) : App A :=
  λ s, let '(a, d) := m (device s) in (a, mkMachine d (m_state s) (globals s)).

Definition set_world (h : Object) : App unit :=
  modify (λ s, mkMachine (device s)
    (mkAppState h (field (m_state s)) (sdata (m_state s))
       (lacReader (m_state s)) (niftiReader (m_state s)) (rawReader (m_state s)))
    (globals s)).

Definition set_field (h : Object) : App unit :=
  modify (λ s, mkMachine (device s)
    (mkAppState (world (m_state s)) h (sdata (m_state s))
       (lacReader (m_state s)) (niftiReader (m_state s)) (rawReader (m_state s)))
    (globals s)).

Definition set_sdata (f : StructuredField) : App unit :=
  modify (λ s, mkMachine (device s)
    (mkAppState (world (m_state s)) (field (m_state s)) f
       (lacReader (m_state s)) (niftiReader (m_state s)) (rawReader (m_state s)))
    (globals s)).

Definition set_lacReader (r : LacReader) : App unit :=
  modify (λ s, mkMachine (device s)
    (mkAppState (world (m_state s)) (field (m_state s)) (sdata (m_state s))
       r (niftiReader (m_state s)) (rawReader (m_state s)))
    (globals s)).

Definition set_niftiReader (r : NiftiReader) : App unit :=
  modify (λ s, mkMachine (device s)
    (mkAppState (world (m_state s)) (field (m_state s)) (sdata (m_state s))
       (lacReader (m_state s)) r (rawReader (m_state s)))
    (globals s)).

Definition set_rawReader (r : RAWReader) : App unit :=
  modify (λ s, mkMachine (device s)
    (mkAppState (world (m_state s)) (field (m_state s)) (sdata (m_state s))
       (lacReader (m_state s)) (niftiReader (m_state s)) r)
    (globals s)).

Definition set_voxelRange (r : float32 * float32) : App unit :=
  modify (λ s, mkMachine (device s) (m_state s)
    (mkGlobals (g_filename (globals s)) (g_dimX (globals s))
       (g_dimY (globals s)) (g_dimZ (globals s))
       (g_bytesPerCell (globals s)) r
       (g_laclutfile (globals s)) (g_laclutid (globals s)))).

(** The state [setupWindows] starts from once [initializeANARI] has
    returned a device: a default-constructed [AppState] and the globals
    as the command line left them.  [g_voxelRange] is a static array
    without initialiser that [parseCommandLine] never writes: it is
    zero-initialised, whatever [g] holds for it. *)
Definition start (g : Globals) : Machine :=
  mkMachine newDevice
    (mkAppState nullptr nullptr emptyField newLacReader newNiftiReader newRAWReader)
    (mkGlobals (g_filename g) (g_dimX g) (g_dimY g) (g_dimZ g)
       (g_bytesPerCell g) (0%float, 0%float) (g_laclutfile g) (g_laclutid g)).

(** ** The scene code *)

(** C++ truth value of an [int]. *)
Definition truthy (z : Z) : bool := negb (z =? 0)%Z.

(** Field construction, l.274-314 (raw file), l.321-361 (medical image)
    and l.459-499 (lambda): the three copies differ only in the extents
    they pass to [anariNewArray3D], the globals [g_dimX], [g_dimY],
    [g_dimZ] in the first and [data.dimX], [data.dimY], [data.dimZ] in
    the other two.  [data] is the reference to [m_state.sdata].  The
    local [anari::Array3D scalar] is declared without an initialiser:
    [scalar0] is the indeterminate handle it holds when none of the three
    branches assigns it. *)
Definition setupField (scalar0 : Object) (n1 n2 n3 : Z) : App unit :=
  data ← gets (sdata ∘ m_state);
  field ← onDevice (create (SpatialField "structuredRegular"));
  scalar ← (if (bytesPerCell data =? 1)%N then
              onDevice (create (Array3D (MemUI8 (dataUI8 data)) ANARI_UFIXED8
                (uint64_of_int n1) (uint64_of_int n2) (uint64_of_int n3)))
            else if (bytesPerCell data =? 2)%N then
              onDevice (create (Array3D (MemUI16 (dataUI16 data)) ANARI_UFIXED16
                (uint64_of_int n1) (uint64_of_int n2) (uint64_of_int n3)))
            else if (bytesPerCell data =? 4)%N then
              onDevice (create (Array3D (MemF32 (dataF32 data)) ANARI_FLOAT32
                (uint64_of_int n1) (uint64_of_int n2) (uint64_of_int n3)))
            else mret scalar0);
  onDevice (setAndReleaseParameter field "data" ANARI_ARRAY3D scalar);;
  onDevice (setParameter field "filter" (VString "linear"));;
  onDevice (commitParameters field);;
  set_field field;;
  set_voxelRange (dataRange data).

(** The fixed ramp, l.375-380 and l.512-517. *)
Definition colors : list float3 :=
  [Float3 0 0 1; Float3 0 1 0; Float3 1 0 0]%float.
Definition opacities : list float32 := [0; 1]%float.

(** Volume construction and binding, l.367-402 and l.503-539. *)
Definition setupVolume : App unit :=
  volume ← onDevice (create (Volume "transferFunction1D"));
  f ← gets (field ∘ m_state);
  onDevice (setParameter volume "value" (VObject ANARI_SPATIAL_FIELD f));;
  f ← gets (field ∘ m_state);
  onDevice (setParameter volume "field" (VObject ANARI_SPATIAL_FIELD f));;
  c ← onDevice (create (Array1D (MemFloat3 colors) ANARI_FLOAT32_VEC3
                          (N.of_nat (length colors))));
  onDevice (setAndReleaseParameter volume "color" ANARI_ARRAY1D c);;
  o ← onDevice (create (Array1D (MemF32 opacities) ANARI_FLOAT32
                          (N.of_nat (length opacities))));
  onDevice (setAndReleaseParameter volume "opacity" ANARI_ARRAY1D o);;
  r ← gets (g_voxelRange ∘ globals);
  onDevice (setParameter volume "valueRange" (VBox1 r.1 r.2));;
  onDevice (commitParameters volume);;
  w ← gets (world ∘ m_state);
  l ← onDevice (create (Array1D (MemObjects [volume]) ANARI_VOLUME 1));
  onDevice (setAndReleaseParameter w "volume" ANARI_ARRAY1D l);;
  onDevice (release volume);;
  w ← gets (world ∘ m_state);
  onDevice (commitParameters w).

(** [Application::setupWindows], l.258-402. *)
Definition setupWindows (scalar0 : Object) : App unit :=
  w ← onDevice (create World);
  set_world w;;
  g ← gets globals;
  lac ← gets (lacReader ∘ m_state);
  set_lacReader
    (lac_setActiveLut (g_laclutid g)
       (lac_read (if String.eqb (g_laclutfile g) EmptyString then lac
                  else lac_setFilename (g_laclutfile g) lac)));;
  opened ← (if truthy (g_dimX g) && truthy (g_dimY g) && truthy (g_dimZ g)
               && negb (g_bytesPerCell g =? 0)%N
            then
              raw ← gets (rawReader ∘ m_state);
              set_rawReader (raw_open (g_filename g) (g_dimX g) (g_dimY g)
                               (g_dimZ g) (g_bytesPerCell g) raw).2;;
              mret (raw_open (g_filename g) (g_dimX g) (g_dimY g)
                      (g_dimZ g) (g_bytesPerCell g) raw).1
            else mret false);
  (if opened : bool then
     raw ← gets (rawReader ∘ m_state);
     set_rawReader (raw_getField 0 raw).2;;
     set_sdata (raw_getField 0 raw).1;;
     setupField scalar0 (g_dimX g) (g_dimY g) (g_dimZ g)
   else
     nifti ← gets (niftiReader ∘ m_state);
     set_niftiReader (nifti_open (g_filename g) nifti).2;;
     if (nifti_open (g_filename g) nifti).1 then
       nifti ← gets (niftiReader ∘ m_state);
       lac ← gets (lacReader ∘ m_state);
       set_niftiReader (nifti_getField 0 lac nifti).2;;
       set_sdata (nifti_getField 0 lac nifti).1;;
       data ← gets (sdata ∘ m_state);
       setupField scalar0 (dimX data) (dimY data) (dimZ data)
     else mret tt);;
  setupVolume.

(** The lambda passed to [setUpdateLacLutCallback], l.453-541. *)
Definition updateLacLut (scalar0 : Object) (lacLutId : N) : App unit :=
  lac ← gets (lacReader ∘ m_state);
  set_lacReader (lac_setActiveLut lacLutId lac);;
  nifti ← gets (niftiReader ∘ m_state);
  lac ← gets (lacReader ∘ m_state);
  set_niftiReader (nifti_getField 0 lac nifti).2;;
  set_sdata (nifti_getField 0 lac nifti).1;;
  data ← gets (sdata ∘ m_state);
  setupField scalar0 (dimX data) (dimY data) (dimZ data);;
  setupVolume.

(** [Application::teardown], l.579-585. *)
Definition teardown : App unit :=
  f ← gets (field ∘ m_state);
  onDevice (release f);;
  w ← gets (world ∘ m_state);
  onDevice (release w);;
  onDevice releaseDevice.

(** ** Observations on a state *)

(** The handles released so far, oldest first, and how often one was. *)
Definition released (log : list call) : list Object :=
  omap (λ c, match c with Release h => Some h | _ => None end) log.

Definition releases (h : Object) (log : list call) : nat :=
  count_occ N.eq_dec (released log) h.

(** The volumes created so far, oldest first; the last one is the volume
    of the current generation. *)
Definition createdVolumes (log : list call) : list Object :=
  omap (λ c, match c with NewObject h (Volume _) => Some h | _ => None end) log.

Definition newestVolume (log : list call) : option Object :=
  last (createdVolumes log).

(** A parameter as set, and as of the last commit of its object. *)
Definition pendingParam (d : Device) (o : Object) (name : string)
  : option value :=
  ob ← objects d !! o; params ob !! name.

Definition committedParam (d : Device) (o : Object) (name : string)
  : option value :=
  ob ← objects d !! o; committed ob !! name.

Definition kindOf (d : Device) (o : Object) : option objectKind :=
  kind <$> objects d !! o.

Definition refsOf (d : Device) (o : Object) : option N :=
  refCount <$> objects d !! o.

(** The volumes a renderer finds in the world: the items of the array
    that is the committed ["volume"] parameter of [m_state.world]. *)
Definition boundVolumes (s : Machine) : option (list Object) :=
  match committedParam (device s) (world (m_state s)) "volume" with
  | Some (VObject ANARI_ARRAY1D l) =>
      match kindOf (device s) l with
      | Some (Array1D (MemObjects vs) ANARI_VOLUME n) =>
          Some (take (N.to_nat n) vs)
      | _ => None
      end
  | _ => None
  end.

(** The byte widths the three-way [if] of the field construction knows. *)
Definition supported (f : StructuredField) : bool :=
  (bytesPerCell f =? 1)%N || (bytesPerCell f =? 2)%N || (bytesPerCell f =? 4)%N.

(** Whether [setupWindows] finds a source: the raw reader is tried only
    when all of [g_dimX], [g_dimY], [g_dimZ], [g_bytesPerCell] are
    non-zero, the medical-image reader when the raw reader did not open. *)
Definition rawOpens (g : Globals) : bool :=
  truthy (g_dimX g) && truthy (g_dimY g) && truthy (g_dimZ g)
  && negb (g_bytesPerCell g =? 0)%N
  && (raw_open (g_filename g) (g_dimX g) (g_dimY g) (g_dimZ g)
        (g_bytesPerCell g) newRAWReader).1.

Definition niftiOpens (g : Globals) : bool :=
  negb (rawOpens g) && (nifti_open (g_filename g) newNiftiReader).1.

(** The states of a session: the one [setupWindows] leaves, and the one
    every later change of the lookup-table selection leaves. *)
Inductive reachable : Machine → Prop :=
| reach_setup (g : Globals) (scalar0 : Object) :
    reachable (exec (setupWindows scalar0) (start g))
| reach_update (s : Machine) (scalar0 : Object) (lacLutId : N) :
    reachable s → reachable (exec (updateLacLut scalar0 lacLutId) s).

(** What every state between two calls of the scene code satisfies: the
    world is an object of the device, and handles from [nextHandle] on
    are not in use. *)
Definition wf (s : Machine) : Prop :=
  (0 < world (m_state s) < nextHandle (device s))%N
  ∧ (∀ h, (nextHandle (device s) ≤ h)%N → objects (device s) !! h = None)
  ∧ (∃ o, objects (device s) !! world (m_state s) = Some o ∧ kind o = World).

(** The parameters of a volume once [setupVolume] has committed it, and
    the calls [setupVolume] makes when [n] is the next free handle. *)
Definition volumeParams (f : Object) (r : float32 * float32) (c o : Object)
  : gmap string value :=
  <["valueRange" := VBox1 r.1 r.2]>
    (<["opacity" := VObject ANARI_ARRAY1D o]>
       (<["color" := VObject ANARI_ARRAY1D c]>
          (<["field" := VObject ANARI_SPATIAL_FIELD f]>
             (<["value" := VObject ANARI_SPATIAL_FIELD f]> ∅)))).

Definition volumeCalls (n w f : Object) (r : float32 * float32) : list call :=
  [ NewObject n (Volume "transferFunction1D");
    SetParameter n "value" (VObject ANARI_SPATIAL_FIELD f);
    SetParameter n "field" (VObject ANARI_SPATIAL_FIELD f);
    NewObject (n + 1) (Array1D (MemFloat3 colors) ANARI_FLOAT32_VEC3 3);
    SetParameter n "color" (VObject ANARI_ARRAY1D (n + 1));
    Release (n + 1);
    NewObject (n + 2) (Array1D (MemF32 opacities) ANARI_FLOAT32 2);
    SetParameter n "opacity" (VObject ANARI_ARRAY1D (n + 2));
    Release (n + 2);
    SetParameter n "valueRange" (VBox1 r.1 r.2);
    CommitParameters n;
    NewObject (n + 3) (Array1D (MemObjects [n]) ANARI_VOLUME 1);
    SetParameter w "volume" (VObject ANARI_ARRAY1D (n + 3));
    Release (n + 3);
    Release n;
    CommitParameters w ]%N.

(** The parameters of a field once [setupField] has committed it. *)
Definition fieldParams (scalar : Object) : gmap string value :=
  <["filter" := VString "linear"]>
    (<["data" := VObject ANARI_ARRAY3D scalar]> ∅).

(** The state of the lambda once it has fetched the field (l.454-457),
    and the state of [setupWindows] once it has created the world, set
    up the lookup tables and selected a source (l.259-271, l.317-318):
    [sd], [ni] and [raw] are the field and the readers as the selection
    left them. *)
Definition reload (lacLutId : N) (s : Machine) : Machine :=
  let lac := lac_setActiveLut lacLutId (lacReader (m_state s)) in
  let r := nifti_getField 0 lac (niftiReader (m_state s)) in
  mkMachine (device s)
    (mkAppState (world (m_state s)) (field (m_state s)) r.1 lac r.2
       (rawReader (m_state s)))
    (globals s).

Definition startLac (g : Globals) : LacReader :=
  lac_setActiveLut (g_laclutid g)
    (lac_read (if String.eqb (g_laclutfile g) EmptyString then newLacReader
               else lac_setFilename (g_laclutfile g) newLacReader)).

Definition staged (g : Globals) (sd : StructuredField) (ni : NiftiReader)
    (raw : RAWReader) : Machine :=
  mkMachine (mkDevice 2 (<[1%N := mkObject World 1 ∅ ∅]> ∅) [NewObject 1%N World] false)
    (mkAppState 1%N nullptr sd (startLac g) ni raw)
    (globals (start g)).

(** What of an object only [setParameter] and [commitParameters] change. *)
Definition shape (o : object) : objectKind * gmap string value * gmap string value :=
  (kind o, params o, committed o).

(** Every volume created so far still is as [setupVolume] committed it:
    a transfer-function volume with the five parameters, over the two
    ramp arrays. *)
Definition volumesGood (s : Machine) : Prop :=
  ∀ v, v ∈ createdVolumes (calls (device s)) →
    (v < nextHandle (device s))%N
    ∧ ∃ f r c o,
        shape <$> objects (device s) !! v =
          Some (Volume "transferFunction1D", volumeParams f r c o, volumeParams f r c o)
        ∧ (c < nextHandle (device s))%N ∧ (o < nextHandle (device s))%N
        ∧ shape <$> objects (device s) !! c =
            Some (Array1D (MemFloat3 colors) ANARI_FLOAT32_VEC3 3, ∅, ∅)
        ∧ shape <$> objects (device s) !! o =
            Some (Array1D (MemF32 opacities) ANARI_FLOAT32 2, ∅, ∅).

(** The contract of the raw reader the spec gives: it opens a file that
    matches the declared extents, so the field it then serves has the
    extents it was opened with. *)
Definition rawServesDeclaredGrid : Prop :=
  ∀ name x y z b r,
    (raw_open name x y z b r).1 = true →
    dimX (raw_getField 0 (raw_open name x y z b r).2).1 = x
    ∧ dimY (raw_getField 0 (raw_open name x y z b r).2).1 = y
    ∧ dimZ (raw_getField 0 (raw_open name x y z b r).2).1 = z.

(** A session: [setupWindows], then the changes of the lookup table in
    [evs], each with the handle the uninitialised [scalar] holds that
    time. *)
Fixpoint changes (evs : list (Object * N)) (s : Machine) : Machine :=
  match evs with
  | [] => s
  | (scalar0, lacLutId) :: evs' =>
      changes evs' (exec (updateLacLut scalar0 lacLutId) s)
  end.

Definition session (g : Globals) (scalar0 : Object) (evs : list (Object * N))
  : Machine :=
  changes evs (exec (setupWindows scalar0) (start g)).

(** The build that left [s] was successful: the field it constructed,
    if any, had one of the three byte widths. *)
Definition successful (s : Machine) : bool :=
  (field (m_state s) =? nullptr)%N || supported (sdata (m_state s)).

Fixpoint allSuccessful (evs : list (Object * N)) (s : Machine) : bool :=
  successful s &&
  match evs with
  | [] => true
  | (scalar0, lacLutId) :: evs' =>
      allSuccessful evs' (exec (updateLacLut scalar0 lacLutId) s)
  end.

(** In [log] the volume [v] was released after an array holding just
    [v] had been set as the ["volume"] parameter of [w]. *)
Definition boundThenReleased (w v : Object) (log : list call) : Prop :=
  ∃ l1 l2 l3 a,
    log = l1 ++ [SetParameter w "volume" (VObject ANARI_ARRAY1D a)]
             ++ l2 ++ [Release v] ++ l3
    ∧ NewObject a (Array1D (MemObjects [v]) ANARI_VOLUME 1) ∈ l1.

(** What the calls so far satisfy when all builds were successful. *)
Definition logGood (s : Machine) : Prop :=
  let log := calls (device s) in
  (∀ h, h ∈ released log → (h < nextHandle (device s))%N)
  ∧ NoDup (released log)
  ∧ (∀ v, v ∈ createdVolumes log →
       v ∈ released log ∧ boundThenReleased (world (m_state s)) v log)
  ∧ (field (m_state s) ≠ nullptr →
       (field (m_state s) < nextHandle (device s))%N
       ∧ field (m_state s) ≠ world (m_state s)
       ∧ (field (m_state s) ∉ released log)
       ∧ refsOf (device s) (field (m_state s)) = Some 1%N).

End Viewer.

(** ** A concrete pair of sources *)

(** Sources small enough to run the scene code on: a catalog of two
    lookup tables, a medical image of 2x2x2 float voxels whose values
    depend on the active table, and a raw reader that serves the grid
    it was opened with, every voxel 128.  A reader that was not opened,
    and the medical-image reader under a table index outside the
    catalog, serve a default-constructed field. *)
Module Demo.

Definition nifti_field (lut : N) : StructuredField :=
  if (lut =? 0)%N then
    mkStructuredField [] [] [-1; 0; 0.5; 1; 2; 3; 3.25; 3.5]%float 2 2 2 4
      (-1, 3.5)%float
  else if (lut =? 1)%N then
    mkStructuredField [] [] [0; 0; 1; 1; 2; 2; 4; 4]%float 2 2 2 4
      (0, 4)%float
  else emptyField.

Definition raw_field (o : option (Z * Z * Z * N)) : StructuredField :=
  match o with
  | Some (x, y, z, b) =>
      mkStructuredField
        (if (b =? 1)%N then replicate (Z.to_nat (x * y * z)) 128%N else [])
        (if (b =? 2)%N then replicate (Z.to_nat (x * y * z)) 128%N else [])
        (if (b =? 4)%N then replicate (Z.to_nat (x * y * z)) 128%float else [])
        x y z b (128, 128)%float
  | None => emptyField
  end.

#[export] Instance sources : VoxelSources := {|
  LacReader := N;
  NiftiReader := bool;
  RAWReader := option (Z * Z * Z * N);
  newLacReader := 0%N;
  newNiftiReader := false;
  newRAWReader := None;
  lac_setFilename := λ _ r, r;
  lac_read := λ r, r;
  lac_setActiveLut := λ i _, i;
  raw_open := λ name x y z b r,
    if String.eqb name "grid.raw" then (true, Some (x, y, z, b)) else (false, r);
  raw_getField := λ _ r, (raw_field r, r);
  nifti_open := λ name r,
    if String.eqb name "ct.nii" then (true, true) else (false, r);
  nifti_getField := λ _ lac r, (if r : bool then nifti_field lac else emptyField, r)
|}.

Definition g_nifti : Globals :=
  mkGlobals "ct.nii" 0 0 0 0 (0, 0)%float EmptyString 0.

Definition g_raw (b : N) : Globals :=
  mkGlobals "grid.raw" 4 4 4 b (0, 0)%float EmptyString 0.

Definition g_none : Globals :=
  mkGlobals "missing.dat" 0 0 0 0 (0, 0)%float EmptyString 0.

(** A session on the medical image: start-up under table 0. *)
Definition s_ct : Machine := exec (setupWindows 0%N) (start g_nifti).

(** A session on the raw grid of [b] bytes per cell. *)
Definition s_grid (b : N) : Machine := exec (setupWindows 0%N) (start (g_raw b)).

(** The state in which [setupWindows] constructs the field of a raw grid
    of 3 bytes per cell (a file name with "int24"). *)
Definition s_int24 : Machine :=
  staged (VS := sources) (g_raw 3) (raw_field (Some (4%Z, 4%Z, 4%Z, 3%N)))
    false (Some (4%Z, 4%Z, 4%Z, 3%N)).

End Demo.

(** * The rest of [viewer.cpp] *)

From Stdlib Require Import Ascii.

(** ** File names *)

(** Conversions between [size_t] (64 bits) and [int] (32 bits), as the
    assignments and comparisons of [getExt] make them. *)
Definition npos : Z := 2 ^ 64 - 1.

Definition int_of_size_t (n : Z) : Z :=
  if (n mod 2 ^ 32 <? 2 ^ 31)%Z then (n mod 2 ^ 32)%Z
  else (n mod 2 ^ 32 - 2 ^ 32)%Z.

Definition size_t_of_int (z : Z) : Z := (z mod 2 ^ 64)%Z.

(** Whether [c] occurs in [s]. *)
Fixpoint has_char (c : ascii) (s : string) : bool :=
  match s with
  | EmptyString => false
  | String a s' => Ascii.eqb a c || has_char c s'
  end.

(** [std::string::rfind(c)]: the index of the last [c], or [npos]; [i]
    is the index of the first character of [s]. *)
Fixpoint rfind_from (c : ascii) (s : string) (i : nat) : option nat :=
  match s with
  | EmptyString => None
  | String a s' =>
      match rfind_from c s' (S i) with
      | Some j => Some j
      | None => if Ascii.eqb a c then Some i else None
      end
  end.

Definition rfind (c : ascii) (s : string) : Z :=
  match rfind_from c s 0 with
  | Some j => Z.of_nat j
  | None => npos
  end.

Fixpoint string_drop (n : nat) (s : string) : string :=
  match n, s with
  | O, _ => s
  | S n', EmptyString => EmptyString
  | S n', String _ s' => string_drop n' s'
  end.

(** [std::string::substr(pos)]: throws [std::out_of_range] ([None]) when
    [pos] is beyond the length. *)
Definition substr (s : string) (pos : Z) : option string :=
  if (pos <=? Z.of_nat (String.length s))%Z
  then Some (string_drop (Z.to_nat pos) s)
  else None.

(** [getExt], l.136-142.  [pos] is an [int] that receives a [size_t],
    is compared with [npos] and is passed to [substr]. *)
Definition getExt (fileName : string) : option string :=
  let pos := int_of_size_t (rfind "."%char fileName) in
  if (size_t_of_int pos =? npos)%Z then Some EmptyString
  else substr fileName (size_t_of_int pos).

(** [std::getline(stream, token, delim)] on the unread part [s] of the
    stream: the token read and what is left unread after it.  The
    delimiter is read and dropped. *)
Fixpoint getline_chars (s : string) (delim : ascii) : string * string :=
  match s with
  | EmptyString => (EmptyString, EmptyString)
  | String c s' =>
      if Ascii.eqb c delim then (EmptyString, s')
      else (String c (getline_chars s' delim).1, (getline_chars s' delim).2)
  end.

(** The call fails when nothing is left to read. *)
Definition getline (s : string) (delim : ascii) : option (string * string) :=
  match s with
  | EmptyString => None
  | String _ _ => Some (getline_chars s delim)
  end.

(** The loop of [string_split], l.150-152, run at most [fuel] times. *)
Fixpoint split_loop (fuel : nat) (s : string) (delim : ascii) : list string :=
  match fuel with
  | O => []
  | S fuel' =>
      match getline s delim with
      | None => []
      | Some (token, rest) => token :: split_loop fuel' rest delim
      end
  end.

(** [string_split], l.144-155: every round reads at least one
    character, so as many rounds as [s] has characters are enough. *)
Definition string_split (s : string) (delim : ascii) : list string :=
  split_loop (String.length s) s delim.

(** The tokens put together again, with [delim] between them. *)
Fixpoint join (delim : ascii) (tokens : list string) : string :=
  match tokens with
  | [] => EmptyString
  | [t] => t
  | t :: ts => t +:+ String delim (join delim ts)
  end.

(** The last character of [s] is [delim]. *)
Fixpoint ends_with (delim : ascii) (s : string) : bool :=
  match s with
  | EmptyString => false
  | String c EmptyString => Ascii.eqb c delim
  | String _ s' => ends_with delim s'
  end.

(** ** The command line *)

(** The functions of the C library the code calls on strings, taken as
    they are: [atoi], and the three [sscanf] calls of [setupWindows],
    each with the values it stores when it stores all of them
    ([sscanf(str, "%ix%ix%i", ...) == 3], [sscanf(str, "int%i", ...) == 1],
    [sscanf(str, "uint%i", ...) == 1]). *)
Class Libc : Type := {
  atoi : string → Z;
  sscanf_dims : string → option (Z * Z * Z);
  sscanf_int : string → option Z;
  sscanf_uint : string → option Z
}.

(** The file-scope variables [parseCommandLine] writes that the scene
    code does not read; [g_traceDir] is a pointer, null at first. *)
Record Options : Type := mkOptions {
  g_verbose : bool;
  g_useDefaultLayout : bool;
  g_enableDebug : bool;
  g_libraryName : string;
  g_traceDir : option string;
  g_jsonfile : string
}.

(** The initialisers of l.35-48. *)
Definition initialGlobals : Globals :=
  mkGlobals EmptyString 0 0 0 0 (0%float, 0%float) EmptyString 0.

Definition initialOptions : Options :=
  mkOptions false true false "environment" None EmptyString.

(** How a function that may call [std::exit] ends; [Undefined] stands
    for a null or out-of-range [argv] element given to [std::string] or
    to [atoi]. *)
Inductive result (A : Type) : Type :=
| Returns (a : A)
| Exits (status : Z)
| Undefined.
Arguments Returns {A} a.
Arguments Exits {A} status.
Arguments Undefined {A}.

Definition with_filename (v : string) (g : Globals) : Globals :=
  mkGlobals v (g_dimX g) (g_dimY g) (g_dimZ g) (g_bytesPerCell g)
    (g_voxelRange g) (g_laclutfile g) (g_laclutid g).

Definition with_dims (x y z : Z) (g : Globals) : Globals :=
  mkGlobals (g_filename g) x y z (g_bytesPerCell g)
    (g_voxelRange g) (g_laclutfile g) (g_laclutid g).

Definition with_bytesPerCell (b : N) (g : Globals) : Globals :=
  mkGlobals (g_filename g) (g_dimX g) (g_dimY g) (g_dimZ g) b
    (g_voxelRange g) (g_laclutfile g) (g_laclutid g).

Definition with_laclutfile (v : string) (g : Globals) : Globals :=
  mkGlobals (g_filename g) (g_dimX g) (g_dimY g) (g_dimZ g) (g_bytesPerCell g)
    (g_voxelRange g) v (g_laclutid g).

Definition with_laclutid (i : N) (g : Globals) : Globals :=
  mkGlobals (g_filename g) (g_dimX g) (g_dimY g) (g_dimZ g) (g_bytesPerCell g)
    (g_voxelRange g) (g_laclutfile g) i.

Definition with_verbose (b : bool) (o : Options) : Options :=
  mkOptions b (g_useDefaultLayout o) (g_enableDebug o) (g_libraryName o)
    (g_traceDir o) (g_jsonfile o).

Definition with_useDefaultLayout (b : bool) (o : Options) : Options :=
  mkOptions (g_verbose o) b (g_enableDebug o) (g_libraryName o)
    (g_traceDir o) (g_jsonfile o).

Definition with_enableDebug (b : bool) (o : Options) : Options :=
  mkOptions (g_verbose o) (g_useDefaultLayout o) b (g_libraryName o)
    (g_traceDir o) (g_jsonfile o).

Definition with_libraryName (v : string) (o : Options) : Options :=
  mkOptions (g_verbose o) (g_useDefaultLayout o) (g_enableDebug o) v
    (g_traceDir o) (g_jsonfile o).

Definition with_traceDir (v : option string) (o : Options) : Options :=
  mkOptions (g_verbose o) (g_useDefaultLayout o) (g_enableDebug o)
    (g_libraryName o) v (g_jsonfile o).

Definition with_jsonfile (v : string) (o : Options) : Options :=
  mkOptions (g_verbose o) (g_useDefaultLayout o) (g_enableDebug o)
    (g_libraryName o) (g_traceDir o) v.

(** An [int] stored in an [unsigned] (32 bits) and in a [size_t]. *)
Definition unsigned_of_int (z : Z) : N := Z.to_N (z mod 2 ^ 32).
Definition size_of_int (z : Z) : N := Z.to_N (size_t_of_int z).

Section CommandLine.
Context `{LC : Libc}.

(** The loop of [parseCommandLine], l.611-650, on the arguments from
    [argv[i]] on.  An option that takes values reads them with
    [argv[++i]]: past the last argument that is the null pointer
    [argv[argc]], which [g_traceDir] can hold and [std::string] and
    [atoi] cannot take.  The test for [-v] is an [if] of its own; the
    chain that follows starts anew, so [-v] ends in its last [else]. *)
Fixpoint parseArgs (args : list string) (st : Globals * Options)
  : result (Globals * Options) :=
  match args with
  | [] => Returns st
  | arg :: rest =>
      let st :=
        if String.eqb arg "-v" || String.eqb arg "--verbose"
        then (st.1, with_verbose true st.2) else st in
      if String.eqb arg "--help" || String.eqb arg "-h" then Exits 0
      else if String.eqb arg "--noDefaultLayout" then
        parseArgs rest (st.1, with_useDefaultLayout false st.2)
      else if String.eqb arg "-l" || String.eqb arg "--library" then
        match rest with
        | v :: rest' => parseArgs rest' (st.1, with_libraryName v st.2)
        | [] => Undefined
        end
      else if String.eqb arg "--debug" || String.eqb arg "-g" then
        parseArgs rest (st.1, with_enableDebug true st.2)
      else if String.eqb arg "--trace" then
        match rest with
        | v :: rest' => parseArgs rest' (st.1, with_traceDir (Some v) st.2)
        | [] => Returns (st.1, with_traceDir None st.2)
        end
      else if String.eqb arg "--dims" || String.eqb arg "-d" then
        match rest with
        | x :: y :: z :: rest' =>
            parseArgs rest' (with_dims (atoi x) (atoi y) (atoi z) st.1, st.2)
        | _ => Undefined
        end
      else if String.eqb arg "--type" || String.eqb arg "-t" then
        match rest with
        | v :: rest' =>
            if String.eqb v "uint8" then
              parseArgs rest' (with_bytesPerCell 1 st.1, st.2)
            else if String.eqb v "uint16" then
              parseArgs rest' (with_bytesPerCell 2 st.1, st.2)
            else if String.eqb v "float32" then
              parseArgs rest' (with_bytesPerCell 4 st.1, st.2)
            else Exits 0
        | [] => Undefined
        end
      else if String.eqb arg "--json" || String.eqb arg "-j" then
        match rest with
        | v :: rest' => parseArgs rest' (st.1, with_jsonfile v st.2)
        | [] => Undefined
        end
      else if String.eqb arg "--lacfile" || String.eqb arg "--lac" then
        match rest with
        | v :: rest' => parseArgs rest' (with_laclutfile v st.1, st.2)
        | [] => Undefined
        end
      else if String.eqb arg "--lut" then
        match rest with
        | v :: rest' =>
            parseArgs rest' (with_laclutid (size_of_int (atoi v)) st.1, st.2)
        | [] => Undefined
        end
      else parseArgs rest (with_filename arg st.1, st.2)
  end.

(** [parseCommandLine], l.609-651: the loop starts at [argv[1]]. *)
Definition parseCommandLine (argv : list string) : result (Globals * Options) :=
  parseArgs (tail argv) (initialGlobals, initialOptions).

(** [main], l.653-663, up to the call of [app.run], which [Returns]
    stands for. *)
Definition main (argv : list string) : result (Globals * Options) :=
  match parseCommandLine argv with
  | Returns st =>
      if String.eqb (g_filename st.1) EmptyString then Exits 1 else Returns st
  | Exits status => Exits status
  | Undefined => Undefined
  end.

(** The words the chain of [parseCommandLine] knows. *)
Definition isOptionWord (arg : string) : bool :=
  bool_decide (arg ∈ ["--help"; "-h"; "--noDefaultLayout"; "-l"; "--library";
                      "--debug"; "-g"; "--trace"; "--dims"; "-d"; "--type";
                      "-t"; "--json"; "-j"; "--lacfile"; "--lac"; "--lut"]%string).

Definition isVerboseWord (arg : string) : bool :=
  String.eqb arg "-v" || String.eqb arg "--verbose".

(** The options that read a value into a [std::string] or give it to
    [atoi]. *)
Definition takesValue (arg : string) : bool :=
  bool_decide (arg ∈ ["-l"; "--library"; "--dims"; "-d"; "--type"; "-t";
                      "--json"; "-j"; "--lacfile"; "--lac"; "--lut"]%string).

(** The guess of extents and type from the name of a raw file,
    l.216-236: the body of the loop over the parts of the name, with
    its [break]. *)
Fixpoint guessLoop (strings : list string) (g : Globals) : Globals :=
  match strings with
  | [] => g
  | str :: rest =>
      let g1 := match sscanf_dims str with
                | Some (x, y, z) => with_dims x y z g
                | None => g
                end in
      let g2 := match sscanf_int str with
                | Some bits => with_bytesPerCell (unsigned_of_int (bits ÷ 8)) g1
                | None => g1
                end in
      let g3 := match sscanf_uint str with
                | Some bits => with_bytesPerCell (unsigned_of_int (bits ÷ 8)) g2
                | None => g2
                end in
      if truthy (g_dimX g3) && truthy (g_dimY g3) && truthy (g_dimZ g3)
         && negb (g_bytesPerCell g3 =? 0)%N
      then g3 else guessLoop rest g3
  end.

(** The first block of [setupWindows], l.211-247; [None] when [getExt]
    throws. *)
Definition guessFromFileName (g : Globals) : option Globals :=
  ext ← getExt (g_filename g);
  if String.eqb ext ".raw" && negb (truthy (g_dimX g)) && negb (truthy (g_dimY g))
     && negb (truthy (g_dimZ g)) && (g_bytesPerCell g =? 0)%N
  then
    let g' := guessLoop (string_split (g_filename g) "_") g in
    Some (if (g_bytesPerCell g' =? 0)%N then with_bytesPerCell 4 g' else g')
  else Some g.

(** The widths [parseCommandLine] can leave in [g_bytesPerCell]. *)
Definition widthOfCommandLine (g : Globals) : Prop :=
  g_bytesPerCell g = 0%N ∨ g_bytesPerCell g = 1%N
  ∨ g_bytesPerCell g = 2%N ∨ g_bytesPerCell g = 4%N.

(** What the loop makes of words it does not know as options: each is
    taken as the file name, [-v] and [--verbose] included. *)
Definition plainState (args : list string) (st : Globals * Options)
  : Globals * Options :=
  foldl (λ st arg,
           (with_filename arg st.1,
            if isVerboseWord arg then with_verbose true st.2 else st.2))
    st args.

End CommandLine.

(** A C library small enough to run the code on: decimal numbers
    without sign. *)
Module DemoLibc.

Fixpoint read_digits (s : string) (acc : Z) (seen : bool) : option (Z * string) :=
  match s with
  | String c s' =>
      match Ascii.is_nat c with
      | Some d => read_digits s' (10 * acc + Z.of_nat d) true
      | None => if seen then Some (acc, s) else None
      end
  | EmptyString => if seen then Some (acc, s) else None
  end.

Definition read_int (s : string) : option (Z * string) := read_digits s 0 false.

Definition expect (c : ascii) (s : string) : option string :=
  match s with
  | String a s' => if Ascii.eqb a c then Some s' else None
  | EmptyString => None
  end.

#[export] Instance libc : Libc := {|
  atoi := λ s, match read_int s with Some (n, _) => n | None => 0%Z end;
  sscanf_dims := λ s,
    '(x, s) ← read_int s; s ← expect "x" s;
    '(y, s) ← read_int s; s ← expect "x" s;
    '(z, _) ← read_int s; Some (x, y, z);
  sscanf_int := λ s,
    s ← expect "i" s; s ← expect "n" s; s ← expect "t" s;
    '(n, _) ← read_int s; Some n;
  sscanf_uint := λ s,
    s ← expect "u" s; s ← expect "i" s; s ← expect "n" s; s ← expect "t" s;
    '(n, _) ← read_int s; Some n
|}.

End DemoLibc.

(** ** The status callback *)

Inductive ANARIStatusSeverity : Type :=
| ANARI_SEVERITY_FATAL_ERROR
| ANARI_SEVERITY_ERROR
| ANARI_SEVERITY_WARNING
| ANARI_SEVERITY_PERFORMANCE_WARNING
| ANARI_SEVERITY_INFO
| ANARI_SEVERITY_DEBUG
| ANARI_SEVERITY_other (code : Z).

(** A line on [stderr]: the tag, the source pointer and the message. *)
Record statusLine : Type := mkStatusLine {
  line_tag : string;
  line_source : Object;
  line_message : string
}.

(** [statusFunc], l.112-134: what it prints and how it ends.
    [userData] points to a [bool] or is null. *)
Definition statusFunc (userData : option bool) (source : Object)
    (severity : ANARIStatusSeverity) (message : string)
  : option statusLine * result unit :=
  let verbose := match userData with Some b => b | None => false end in
  match severity with
  | ANARI_SEVERITY_FATAL_ERROR =>
      (Some (mkStatusLine "[FATAL]" source message), Exits 1)
  | ANARI_SEVERITY_ERROR =>
      (Some (mkStatusLine "[ERROR]" source message), Returns tt)
  | ANARI_SEVERITY_WARNING =>
      (Some (mkStatusLine "[WARN ]" source message), Returns tt)
  | ANARI_SEVERITY_PERFORMANCE_WARNING =>
      if verbose then (Some (mkStatusLine "[PERF ]" source message), Returns tt)
      else (None, Returns tt)
  | ANARI_SEVERITY_INFO =>
      if verbose then (Some (mkStatusLine "[INFO ]" source message), Returns tt)
      else (None, Returns tt)
  | ANARI_SEVERITY_DEBUG =>
      if verbose then (Some (mkStatusLine "[DEBUG]" source message), Returns tt)
      else (None, Returns tt)
  | ANARI_SEVERITY_other _ => (None, Returns tt)
  end.

(** Fatal errors, errors and warnings. *)
Definition isProblem (severity : ANARIStatusSeverity) : bool :=
  match severity with
  | ANARI_SEVERITY_FATAL_ERROR | ANARI_SEVERITY_ERROR
  | ANARI_SEVERITY_WARNING => true
  | _ => false
  end.

(** ** More observations on the scene *)

Section Scene.
Context `{VS : VoxelSources}.

(** Whether [setupWindows] calls [rawReader.open] at all. *)
Definition rawTried (g : Globals) : bool :=
  truthy (g_dimX g) && truthy (g_dimY g) && truthy (g_dimZ g)
  && negb (g_bytesPerCell g =? 0)%N.

(** The raw reader as [setupWindows] leaves it when it did not open. *)
Definition rawAfterOpen (g : Globals) : RAWReader :=
  if rawTried g
  then (raw_open (g_filename g) (g_dimX g) (g_dimY g) (g_dimZ g)
          (g_bytesPerCell g) newRAWReader).2
  else newRAWReader.

(** Nothing set on an object is left uncommitted. *)
Definition allCommitted (s : Machine) : Prop :=
  ∀ h o, objects (device s) !! h = Some o → params o = committed o.

(** The objects of the device are the handles from 1 up to
    [nextHandle]. *)
Definition dense (s : Machine) : Prop :=
  ∀ h, is_Some (objects (device s) !! h) ↔ (0 < h < nextHandle (device s))%N.

(** The fields created so far, oldest first. *)
Definition createdFields (log : list call) : list Object :=
  omap (λ c, match c with NewObject h (SpatialField _) => Some h | _ => None end) log.

(** The references the application holds when all builds were
    successful: one to the world and one to every field it created,
    none to anything else. *)
Definition refsGood (s : Machine) : Prop :=
  (∀ h o, objects (device s) !! h = Some o →
     refCount o =
       if bool_decide (h = world (m_state s)
                       ∨ h ∈ createdFields (calls (device s)))
       then 1%N else 0%N)
  ∧ (∀ f, f ∈ createdFields (calls (device s)) →
       (world (m_state s) < f < nextHandle (device s))%N)
  ∧ NoDup (createdFields (calls (device s)))
  ∧ (field (m_state s) = nullptr ∧ createdFields (calls (device s)) = []
     ∨ last (createdFields (calls (device s))) = Some (field (m_state s))).

End Scene.

(** ** Failure of the medical-image reader *)

(** How a call ends: it returns, or an exception leaves it. *)
Inductive completion (A : Type) : Type :=
| Normal (a : A)
| Thrown.
Arguments Normal {A} a.
Arguments Thrown {A}.

(** Modelled from the spec: how [NiftiReader::getField] signals failure;
    readNifti.h is missing.  The spec has a call of a voxel source
    either return a field or signal failure synchronously, a table index
    at or beyond the size of the catalog being one cause.  [getField]
    returns the field by value, so the signal is an exception, the way
    [initializeANARI] signals its own failure at l.162.
    [nifti_getField_throws] tells for which calls, and
    [nifti_getField_unwound] is the reader as the failed call leaves
    it. *)
Class ReaderFailure `{VS : VoxelSources} : Type := {
  nifti_getField_throws : Z → LacReader → NiftiReader → bool;
  nifti_getField_unwound : Z → LacReader → NiftiReader → NiftiReader
}.

Section Failure.
Context `{VS : VoxelSources} {RF : ReaderFailure}.

(** Code an exception may leave: the state is the one at the throw. *)
Definition Try (A : Type) : Type := Machine → completion A * Machine.

Definition try_bind {A B} (m : Try A) (k : A → Try B) : Try B :=
  λ s, match m s with
       | (Normal a, s') => k a s'
       | (Thrown, s') => (Thrown, s')
       end.

#[global] Instance Try_ret : MRet Try := λ A a s, (Normal a, s).
#[global] Instance Try_bind : MBind Try := λ A B k m, try_bind m k.

(** Code that only returns. *)
Definition lift {A} (m : App A) : Try A :=
  λ s, (Normal (m s).1, (m s).2).

Definition throw {A} : Try A := λ s, (Thrown, s).

(** The lambda passed to [setUpdateLacLutCallback], l.453-541, with the
    exception of [getField] at l.456: nothing in the lambda catches it,
    so it leaves the lambda from there, before the assignment to
    [m_state.sdata]. *)
Definition updateLacLutCallback (scalar0 : Object) (lacLutId : N) : Try unit :=
  lac ← lift (gets (lacReader ∘ m_state));
  lift (set_lacReader (lac_setActiveLut lacLutId lac));;
  nifti ← lift (gets (niftiReader ∘ m_state));
  lac ← lift (gets (lacReader ∘ m_state));
  (if nifti_getField_throws 0 lac nifti then
     lift (set_niftiReader (nifti_getField_unwound 0 lac nifti));;
     throw
   else
     lift (set_niftiReader (nifti_getField 0 lac nifti).2);;
     lift (set_sdata (nifti_getField 0 lac nifti).1));;
  data ← lift (gets (sdata ∘ m_state));
  lift (setupField scalar0 (dimX data) (dimY data) (dimZ data));;
  lift setupVolume.

End Failure.

(** The medical-image reader of [Demo] over its catalog of two tables:
    [getField] fails under a table index of 2 or more. *)
Module DemoFailure.

#[export] Instance failure : @ReaderFailure Demo.sources :=
  @Build_ReaderFailure Demo.sources (λ _ lac _, (2 <=? lac)%N) (λ _ _ r, r).

End DemoFailure.

(** * Proofs *)

(** Unfolds the monadic code and the record projections, and nothing of
    the finite maps. *)
Ltac run :=
  cbv beta iota zeta delta
    [exec setupVolume setupField updateLacLut setupWindows teardown start
     mbind mret St_bind St_ret onDevice gets modify compose fst snd
     create setParameter commitParameters release setAndReleaseParameter
     releaseDevice newDevice
     set_world set_field set_sdata set_lacReader set_niftiReader
     set_rawReader set_voxelRange
     device m_state globals nextHandle objects calls deviceReleased
     world field sdata lacReader niftiReader rawReader
     g_filename g_dimX g_dimY g_dimZ g_bytesPerCell g_voxelRange
     g_laclutfile g_laclutid].

(** The same, up to the calls of [setupField] and [setupVolume]. *)
Ltac run_outer :=
  cbv beta iota zeta delta
    [exec updateLacLut setupWindows start
     mbind mret St_bind St_ret onDevice gets modify compose fst snd
     create newDevice
     set_world set_sdata set_lacReader set_niftiReader set_rawReader
     device m_state globals nextHandle objects calls deviceReleased
     world field sdata lacReader niftiReader rawReader
     g_filename g_dimX g_dimY g_dimZ g_bytesPerCell g_voxelRange
     g_laclutfile g_laclutid].

(** Lookups through the inserts and alters a run leaves. *)
Ltac lk :=
  repeat first
    [ rewrite lookup_alter_eq | rewrite lookup_insert_eq
    | rewrite lookup_alter_ne by lia | rewrite lookup_insert_ne by lia ].

(** Handles as offsets from the first fresh one. *)
Ltac offsets :=
  repeat match goal with
  | |- context [N.succ (N.succ (N.succ (N.succ (N.succ ?n))))] =>
      replace (N.succ (N.succ (N.succ (N.succ (N.succ n))))) with (n + 5)%N by lia
  | |- context [N.succ (N.succ (N.succ (N.succ ?n)))] =>
      replace (N.succ (N.succ (N.succ (N.succ n)))) with (n + 4)%N by lia
  | |- context [N.succ (N.succ (N.succ ?n))] =>
      replace (N.succ (N.succ (N.succ n))) with (n + 3)%N by lia
  | |- context [N.succ (N.succ ?n)] =>
      replace (N.succ (N.succ n)) with (n + 2)%N by lia
  | |- context [N.succ ?n] =>
      replace (N.succ n) with (n + 1)%N by lia
  end.

Section Facts.
Context `{VS : VoxelSources}.
Local Open Scope N_scope.

Lemma exec_bind {A B} (m : App A) (k : A → App B) (s : Machine) :
  exec (m ≫= k) s = exec (k (m s).1) (exec m s).
Proof. unfold exec, mbind, St_bind. destruct (m s). reflexivity. Qed.

(** *** Volume construction *)

Lemma setupVolume_frame (s : Machine) :
  m_state (exec setupVolume s) = m_state s
  ∧ globals (exec setupVolume s) = globals s
  ∧ nextHandle (device (exec setupVolume s)) = nextHandle (device s) + 4
  ∧ calls (device (exec setupVolume s)) =
      calls (device s) ++
      volumeCalls (nextHandle (device s)) (world (m_state s))
        (field (m_state s)) (g_voxelRange (globals s)).
Proof.
  destruct s as [[n objs log rel] [w f sd lac ni raw] g]. run.
  repeat split; [lia|].
  rewrite <- !app_assoc. cbn [app]. unfold volumeCalls. offsets. reflexivity.
Qed.

Lemma setupVolume_objects (s : Machine) :
  let n := nextHandle (device s) in
  let w := world (m_state s) in
  let d' := device (exec setupVolume s) in
  w < n →
  objects d' !! n =
    Some (mkObject (Volume "transferFunction1D") 0
            (volumeParams (field (m_state s)) (g_voxelRange (globals s)) (n + 1) (n + 2))
            (volumeParams (field (m_state s)) (g_voxelRange (globals s)) (n + 1) (n + 2)))
  ∧ objects d' !! (n + 1) =
      Some (mkObject (Array1D (MemFloat3 colors) ANARI_FLOAT32_VEC3 3) 0 ∅ ∅)
  ∧ objects d' !! (n + 2) =
      Some (mkObject (Array1D (MemF32 opacities) ANARI_FLOAT32 2) 0 ∅ ∅)
  ∧ objects d' !! (n + 3) =
      Some (mkObject (Array1D (MemObjects [n]) ANARI_VOLUME 1) 0 ∅ ∅)
  ∧ objects d' !! w =
      (λ o, commit (set_param "volume" (VObject ANARI_ARRAY1D (n + 3)) o))
        <$> objects (device s) !! w
  ∧ (∀ h, h ≠ w → h < n ∨ n + 4 ≤ h → objects d' !! h = objects (device s) !! h).
Proof.
  destruct s as [[n objs log rel] [w f sd lac ni raw] g]. run. intros Hw.
  repeat split.
  - lk. cbn. offsets. reflexivity.
  - offsets. lk. reflexivity.
  - offsets. lk. reflexivity.
  - offsets. lk. reflexivity.
  - offsets. lk. destruct (objs !! w); reflexivity.
  - intros h Hh Hr. offsets. lk. reflexivity.
Qed.

(** *** Field construction *)

Ltac width_cases data :=
  destruct (bytesPerCell data =? 1) eqn:E1;
  [| destruct (bytesPerCell data =? 2) eqn:E2;
     [| destruct (bytesPerCell data =? 4) eqn:E4 ] ].

Lemma setupField_frame (scalar0 : Object) (n1 n2 n3 : Z) (s : Machine) :
  let s' := exec (setupField scalar0 n1 n2 n3) s in
  world (m_state s') = world (m_state s)
  ∧ field (m_state s') = nextHandle (device s)
  ∧ sdata (m_state s') = sdata (m_state s)
  ∧ lacReader (m_state s') = lacReader (m_state s)
  ∧ niftiReader (m_state s') = niftiReader (m_state s)
  ∧ rawReader (m_state s') = rawReader (m_state s)
  ∧ g_voxelRange (globals s') = dataRange (sdata (m_state s))
  ∧ nextHandle (device s') =
      nextHandle (device s) + (if supported (sdata (m_state s)) then 2 else 1).
Proof.
  destruct s as [[n objs log rel] [w f sd lac ni raw] g]. unfold supported. run.
  width_cases sd; run; cbn [orb]; repeat split; lia.
Qed.

Lemma setupField_supported (scalar0 : Object) (n1 n2 n3 : Z) (s : Machine) :
  let n := nextHandle (device s) in
  let data := sdata (m_state s) in
  let d' := device (exec (setupField scalar0 n1 n2 n3) s) in
  supported data = true →
  ∃ mem ty,
    ((bytesPerCell data = 1 ∧ mem = MemUI8 (dataUI8 data) ∧ ty = ANARI_UFIXED8)
     ∨ (bytesPerCell data = 2 ∧ mem = MemUI16 (dataUI16 data) ∧ ty = ANARI_UFIXED16)
     ∨ (bytesPerCell data = 4 ∧ mem = MemF32 (dataF32 data) ∧ ty = ANARI_FLOAT32))
    ∧ objects d' !! n =
        Some (mkObject (SpatialField "structuredRegular") 1
                (fieldParams (n + 1)) (fieldParams (n + 1)))
    ∧ objects d' !! (n + 1) =
        Some (mkObject (Array3D mem ty (uint64_of_int n1) (uint64_of_int n2)
                          (uint64_of_int n3)) 0 ∅ ∅)
    ∧ calls d' =
        calls (device s) ++
        [ NewObject n (SpatialField "structuredRegular");
          NewObject (n + 1) (Array3D mem ty (uint64_of_int n1)
                               (uint64_of_int n2) (uint64_of_int n3));
          SetParameter n "data" (VObject ANARI_ARRAY3D (n + 1));
          Release (n + 1);
          SetParameter n "filter" (VString "linear");
          CommitParameters n ]
    ∧ (∀ h, h < n ∨ n + 2 ≤ h → objects d' !! h = objects (device s) !! h).
Proof.
  destruct s as [[n objs log rel] [w f sd lac ni raw] g]. unfold supported. run.
  width_cases sd; run; cbn [orb]; intros Hs; try discriminate Hs.
  - exists (MemUI8 (dataUI8 sd)), ANARI_UFIXED8. rewrite <- !app_assoc. cbn [app].
    offsets. repeat split.
    + left. apply N.eqb_eq in E1. done.
    + lk. reflexivity.
    + lk. reflexivity.
    + intros h Hh. lk. reflexivity.
  - exists (MemUI16 (dataUI16 sd)), ANARI_UFIXED16. rewrite <- !app_assoc. cbn [app].
    offsets. repeat split.
    + right; left. apply N.eqb_eq in E2. done.
    + lk. reflexivity.
    + lk. reflexivity.
    + intros h Hh. lk. reflexivity.
  - exists (MemF32 (dataF32 sd)), ANARI_FLOAT32. rewrite <- !app_assoc. cbn [app].
    offsets. repeat split.
    + right; right. apply N.eqb_eq in E4. done.
    + lk. reflexivity.
    + lk. reflexivity.
    + intros h Hh. lk. reflexivity.
Qed.

Lemma setupField_unsupported (scalar0 : Object) (n1 n2 n3 : Z) (s : Machine) :
  let n := nextHandle (device s) in
  let d' := device (exec (setupField scalar0 n1 n2 n3) s) in
  supported (sdata (m_state s)) = false →
  calls d' =
    calls (device s) ++
    [ NewObject n (SpatialField "structuredRegular");
      SetParameter n "data" (VObject ANARI_ARRAY3D scalar0);
      Release scalar0;
      SetParameter n "filter" (VString "linear");
      CommitParameters n ]
  ∧ (∃ refs, objects d' !! n =
        Some (mkObject (SpatialField "structuredRegular") refs
                (fieldParams scalar0) (fieldParams scalar0)))
  ∧ (∀ h, h ≠ n →
       shape <$> objects d' !! h = shape <$> objects (device s) !! h).
Proof.
  destruct s as [[n objs log rel] [w f sd lac ni raw] g]. unfold supported. run.
  width_cases sd; run; cbn [orb]; intros Hs; try discriminate Hs.
  rewrite <- !app_assoc. cbn [app]. repeat split.
  - lk. destruct (decide (scalar0 = n)) as [->|Hne]; lk; cbn; eauto.
  - intros h Hh. lk.
    destruct (decide (scalar0 = h)) as [->|Hne]; lk; [|done].
    destruct (objs !! h); reflexivity.
Qed.

(** *** The two builds as field construction followed by volume construction *)

Lemma updateLacLut_unfold (scalar0 : Object) (lacLutId : N) (s : Machine) :
  let data := sdata (m_state (reload lacLutId s)) in
  exec (updateLacLut scalar0 lacLutId) s =
  exec setupVolume
    (exec (setupField scalar0 (dimX data) (dimY data) (dimZ data))
       (reload lacLutId s)).
Proof.
  destruct s as [[n objs log rel] [w f sd lac ni raw] g]. unfold reload.
  run_outer.
  destruct (nifti_getField 0 (lac_setActiveLut lacLutId lac) ni) as [d ni'].
  destruct (setupField _ _ _ _ _). reflexivity.
Qed.

Lemma setupWindows_unfold (scalar0 : Object) (g : Globals) :
  ∃ sd ni raw,
    let m := staged g sd ni raw in
    (rawOpens g = true ∧ niftiOpens g = false ∧ ni = newNiftiReader
     ∧ sd = (raw_getField 0 (raw_open (g_filename g) (g_dimX g) (g_dimY g)
                (g_dimZ g) (g_bytesPerCell g) newRAWReader).2).1
     ∧ exec (setupWindows scalar0) (start g) =
       exec setupVolume
         (exec (setupField scalar0 (g_dimX g) (g_dimY g) (g_dimZ g)) m))
    ∨ (rawOpens g = false ∧ niftiOpens g = true
       ∧ sd = (nifti_getField 0 (startLac g)
                 (nifti_open (g_filename g) newNiftiReader).2).1
       ∧ exec (setupWindows scalar0) (start g) =
         exec setupVolume
           (exec (setupField scalar0 (dimX sd) (dimY sd) (dimZ sd)) m))
    ∨ (rawOpens g = false ∧ niftiOpens g = false
       ∧ exec (setupWindows scalar0) (start g) = exec setupVolume m).
Proof.
  destruct g as [name x y z b r lf li].
  unfold niftiOpens, rawOpens, staged, startLac. run_outer.
  destruct (truthy x && truthy y && truthy z && negb (b =? 0)) eqn:C; cbn [andb].
  - destruct (raw_open name x y z b newRAWReader) as [[|] r1] eqn:O; cbn [negb andb].
    + destruct (raw_getField 0 r1) as [d r2] eqn:G.
      exists d, newNiftiReader, r2. left.
      split; [done|]. split; [done|]. split; [done|]. split; [done|].
      destruct (setupField _ _ _ _ _). reflexivity.
    + destruct (nifti_open name newNiftiReader) as [[|] n1] eqn:P.
      * destruct (nifti_getField 0 _ n1) as [d n2] eqn:G.
        exists d, n2, r1. right; left.
        split; [done|]. split; [done|]. split; [done|].
        destruct (setupField _ _ _ _ _). reflexivity.
      * exists emptyField, n1, r1. right; right. done.
  - destruct (nifti_open name newNiftiReader) as [[|] n1] eqn:P.
    + destruct (nifti_getField 0 _ n1) as [d n2] eqn:G.
      exists d, n2, newRAWReader. right; left.
      split; [done|]. split; [done|]. split; [done|].
      destruct (setupField _ _ _ _ _). reflexivity.
    + exists emptyField, n1, newRAWReader. right; right. done.
Qed.

(** *** Well-formedness *)

Lemma wf_staged g sd ni raw : wf (staged g sd ni raw).
Proof.
  unfold wf, staged; cbn. repeat split; try lia.
  - intros h Hh. rewrite lookup_insert_ne by lia. apply lookup_empty.
  - eexists. rewrite lookup_insert_eq. done.
Qed.

Lemma wf_reload lacLutId s : wf s → wf (reload lacLutId s).
Proof. unfold wf, reload. destruct s as [d a g]; cbn. done. Qed.

Lemma wf_setupField scalar0 n1 n2 n3 s :
  wf s → wf (exec (setupField scalar0 n1 n2 n3) s).
Proof.
  intros (Hw & Hfresh & o & Ho & Hk).
  pose proof (setupField_frame scalar0 n1 n2 n3 s) as (Ew & _ & _ & _ & _ & _ & _ & En).
  cbv zeta in Ew, En. unfold wf. rewrite Ew, En.
  destruct (supported (sdata (m_state s))) eqn:Hs.
  - destruct (setupField_supported scalar0 n1 n2 n3 s Hs)
      as (mem & ty & _ & _ & _ & _ & Hframe).
    repeat split; try lia.
    + intros h Hh. rewrite Hframe by lia. apply Hfresh. lia.
    + exists o. rewrite Hframe by lia. done.
  - destruct (setupField_unsupported scalar0 n1 n2 n3 s Hs) as (_ & _ & Hframe).
    repeat split; try lia.
    + intros h Hh. specialize (Hframe h ltac:(lia)).
      rewrite Hfresh in Hframe by lia.
      destruct (objects (device (exec _ s)) !! h); [simplify_eq/= | done].
    + specialize (Hframe (world (m_state s)) ltac:(lia)). rewrite Ho in Hframe.
      destruct (objects (device (exec _ s)) !! world (m_state s)) as [o'|];
        [| simplify_eq/=].
      exists o'. split; [done|]. unfold shape in Hframe. simplify_eq/=. congruence.
Qed.

Lemma wf_setupVolume s : wf s → wf (exec setupVolume s).
Proof.
  intros (Hw & Hfresh & o & Ho & Hk).
  pose proof (setupVolume_frame s) as (Em & _ & En & _).
  pose proof (setupVolume_objects s) as Hobj. cbv zeta in Hobj.
  destruct Hobj as (_ & _ & _ & _ & Hworld & Hframe); [lia|].
  unfold wf. rewrite Em, En. repeat split; try lia.
  - intros h Hh. rewrite Hframe by lia. apply Hfresh. lia.
  - rewrite Hworld, Ho. eexists. split; [reflexivity|]. done.
Qed.

Lemma reachable_wf s : reachable s → wf s.
Proof.
  induction 1 as [g j | s j id _ IH].
  - destruct (setupWindows_unfold j g) as (sd & ni & raw & H).
    cbv zeta in H.
    destruct H as [(_ & _ & _ & _ & ->) | [(_ & _ & _ & ->) | (_ & _ & ->)]];
      auto using wf_setupVolume, wf_setupField, wf_staged.
  - rewrite updateLacLut_unfold.
    auto using wf_setupVolume, wf_setupField, wf_reload.
Qed.

(** *** Objects of earlier builds *)

Lemma setupField_shape scalar0 n1 n2 n3 s h :
  h < nextHandle (device s) →
  shape <$> objects (device (exec (setupField scalar0 n1 n2 n3) s)) !! h =
  shape <$> objects (device s) !! h.
Proof.
  intros Hh. destruct (supported (sdata (m_state s))) eqn:Hs.
  - destruct (setupField_supported scalar0 n1 n2 n3 s Hs)
      as (mem & ty & _ & _ & _ & _ & Hframe).
    rewrite Hframe by lia. done.
  - destruct (setupField_unsupported scalar0 n1 n2 n3 s Hs) as (_ & _ & Hframe).
    apply Hframe. lia.
Qed.

Lemma setupVolume_shape s h :
  wf s → h < nextHandle (device s) → h ≠ world (m_state s) →
  shape <$> objects (device (exec setupVolume s)) !! h =
  shape <$> objects (device s) !! h.
Proof.
  intros (Hw & _) Hh Hne.
  pose proof (setupVolume_objects s) as Hobj. cbv zeta in Hobj.
  destruct Hobj as (_ & _ & _ & _ & _ & Hframe); [lia|].
  rewrite Hframe by (done || lia). done.
Qed.

(** *** The generation a build leaves *)

Lemma createdVolumes_app l1 l2 :
  createdVolumes (l1 ++ l2) = createdVolumes l1 ++ createdVolumes l2.
Proof. apply omap_app. Qed.

Lemma released_app l1 l2 : released (l1 ++ l2) = released l1 ++ released l2.
Proof. apply omap_app. Qed.

Lemma setupVolume_bound (m : Machine) :
  wf m →
  let s := exec setupVolume m in
  let v := nextHandle (device m) in
  calls (device s) =
    calls (device m) ++
    volumeCalls v (world (m_state s)) (field (m_state s)) (g_voxelRange (globals s))
  ∧ boundVolumes s = Some [v]
  ∧ pendingParam (device s) (world (m_state s)) "volume" =
    committedParam (device s) (world (m_state s)) "volume"
  ∧ objects (device s) !! v =
      Some (mkObject (Volume "transferFunction1D") 0
              (volumeParams (field (m_state s)) (g_voxelRange (globals s)) (v + 1) (v + 2))
              (volumeParams (field (m_state s)) (g_voxelRange (globals s)) (v + 1) (v + 2)))
  ∧ objects (device s) !! (v + 1) =
      Some (mkObject (Array1D (MemFloat3 colors) ANARI_FLOAT32_VEC3 3) 0 ∅ ∅)
  ∧ objects (device s) !! (v + 2) =
      Some (mkObject (Array1D (MemF32 opacities) ANARI_FLOAT32 2) 0 ∅ ∅).
Proof.
  intros (Hw & Hfresh & o & Ho & Hk).
  pose proof (setupVolume_frame m) as (Em & Eg & En & Ec).
  pose proof (setupVolume_objects m) as Hobj. cbv zeta in Hobj.
  destruct Hobj as (Hv & Hc & Hop & Hl & Hworld & Hframe); [lia|].
  cbv zeta. rewrite Em, Eg.
  split; [exact Ec|]. split; [|split; [|split; [exact Hv|split; [exact Hc|exact Hop]]]].
  - unfold boundVolumes, committedParam, kindOf.
    rewrite ?Em, Hworld, Ho. cbn [fmap option_fmap option_map mbind option_bind].
    unfold commit, set_param; cbn [committed params kind].
    rewrite lookup_insert_eq, Hl. reflexivity.
  - unfold pendingParam, committedParam. rewrite Hworld, Ho. reflexivity.
Qed.

Lemma newestVolume_volumeCalls log v w f r :
  newestVolume (log ++ volumeCalls v w f r) = Some v.
Proof.
  unfold newestVolume. rewrite createdVolumes_app. cbn. apply last_snoc.
Qed.

(** The state a build leaves is [setupVolume] run on a well-formed state
    in which either a field has just been constructed or, at start-up
    without a source, none was. *)
Lemma reachable_built (s : Machine) :
  reachable s →
  ∃ m, wf m ∧ s = exec setupVolume m
    ∧ ((∃ m0 scalar0 n1 n2 n3,
          wf m0 ∧ m = exec (setupField scalar0 n1 n2 n3) m0
          ∧ ((n1 = dimX (sdata (m_state m0)) ∧ n2 = dimY (sdata (m_state m0))
              ∧ n3 = dimZ (sdata (m_state m0)))
             ∨ (∃ g, rawOpens g = true
                  ∧ sdata (m_state m0) =
                      (raw_getField 0 (raw_open (g_filename g) (g_dimX g)
                         (g_dimY g) (g_dimZ g) (g_bytesPerCell g) newRAWReader).2).1
                  ∧ n1 = g_dimX g ∧ n2 = g_dimY g ∧ n3 = g_dimZ g)))
       ∨ (field (m_state m) = nullptr
          ∧ g_voxelRange (globals m) = (0%float, 0%float))).
Proof.
  intros Hr. inversion Hr as [g j | s0 j id Hs0]; subst.
  - destruct (setupWindows_unfold j g) as (sd & ni & raw & H).
    cbv zeta in H.
    destruct H as [(Hraw & _ & _ & Hsd & ->) | [(_ & _ & Hsd & ->) | (_ & _ & ->)]].
    + eexists. split; [|split; [reflexivity|]].
      { auto using wf_setupField, wf_staged. }
      left. eexists _, _, _, _, _. split; [apply wf_staged|].
      split; [reflexivity|]. right. exists g. done.
    + eexists. split; [|split; [reflexivity|]].
      { auto using wf_setupField, wf_staged. }
      left. eexists _, _, _, _, _. split; [apply wf_staged|].
      split; [reflexivity|]. left. done.
    + eexists. split; [|split; [reflexivity|]].
      { apply wf_staged. }
      right. done.
  - rewrite updateLacLut_unfold.
    eexists. split; [|split; [reflexivity|]].
    { auto using wf_setupField, wf_reload, reachable_wf. }
    left. eexists (reload id s0), j, _, _, _.
    split; [auto using wf_reload, reachable_wf|].
    split; [reflexivity|]. left. done.
Qed.

Lemma volumeParams_lookup f r c o :
  volumeParams f r c o !! "value" = Some (VObject ANARI_SPATIAL_FIELD f)
  ∧ volumeParams f r c o !! "field" = Some (VObject ANARI_SPATIAL_FIELD f)
  ∧ volumeParams f r c o !! "color" = Some (VObject ANARI_ARRAY1D c)
  ∧ volumeParams f r c o !! "opacity" = Some (VObject ANARI_ARRAY1D o)
  ∧ volumeParams f r c o !! "valueRange" = Some (VBox1 r.1 r.2).
Proof. unfold volumeParams. repeat split; by simplify_map_eq. Qed.

Lemma fieldParams_lookup a :
  fieldParams a !! "data" = Some (VObject ANARI_ARRAY3D a)
  ∧ fieldParams a !! "filter" = Some (VString "linear").
Proof. unfold fieldParams. repeat split; by simplify_map_eq. Qed.

(** *** All volumes created so far *)

Lemma setupField_createdVolumes scalar0 n1 n2 n3 s :
  createdVolumes (calls (device (exec (setupField scalar0 n1 n2 n3) s))) =
  createdVolumes (calls (device s)).
Proof.
  destruct (supported (sdata (m_state s))) eqn:Hs.
  - destruct (setupField_supported scalar0 n1 n2 n3 s Hs)
      as (mem & ty & _ & _ & _ & -> & _).
    rewrite createdVolumes_app. cbn. apply app_nil_r.
  - destruct (setupField_unsupported scalar0 n1 n2 n3 s Hs) as (-> & _ & _).
    rewrite createdVolumes_app. cbn. apply app_nil_r.
Qed.

Lemma shape_not_world s h k p c :
  wf s → shape <$> objects (device s) !! h = Some (k, p, c) → k ≠ World →
  h ≠ world (m_state s).
Proof.
  intros (_ & _ & o & Ho & Hk) Hh Hne ->. rewrite Ho in Hh.
  unfold shape in Hh. simplify_eq/=.
Qed.

Lemma volumesGood_setupField scalar0 n1 n2 n3 s :
  volumesGood s → volumesGood (exec (setupField scalar0 n1 n2 n3) s).
Proof.
  intros Hg v Hv. rewrite setupField_createdVolumes in Hv.
  destruct (Hg v Hv) as (Hlt & f & r & c & o & Hsv & Hc & Ho & Hsc & Hso).
  pose proof (setupField_frame scalar0 n1 n2 n3 s) as (_ & _ & _ & _ & _ & _ & _ & En).
  cbv zeta in En.
  assert (nextHandle (device s) <
          nextHandle (device (exec (setupField scalar0 n1 n2 n3) s))) as Hn.
  { rewrite En. destruct (supported _); lia. }
  split; [lia|]. exists f, r, c, o.
  rewrite !setupField_shape by assumption. repeat split; (assumption || lia).
Qed.

Lemma volumesGood_setupVolume s :
  wf s → volumesGood s → volumesGood (exec setupVolume s).
Proof.
  intros Hwf Hg v Hv.
  destruct (setupVolume_bound s Hwf) as (Hc & _ & _ & Hnv & Hnc & Hno).
  pose proof (setupVolume_frame s) as (_ & _ & En & _).
  rewrite Hc, createdVolumes_app in Hv. cbn in Hv.
  apply elem_of_app in Hv as [Hv | Hv].
  - destruct (Hg v Hv) as (Hlt & f & r & c & o & Hsv & Hcl & Hol & Hsc & Hso).
    assert (v ≠ world (m_state s)) as Hvw
      by (eapply shape_not_world; [exact Hwf|exact Hsv|discriminate]).
    assert (c ≠ world (m_state s)) as Hcw
      by (eapply shape_not_world; [exact Hwf|exact Hsc|discriminate]).
    assert (o ≠ world (m_state s)) as How
      by (eapply shape_not_world; [exact Hwf|exact Hso|discriminate]).
    split; [lia|]. exists f, r, c, o.
    rewrite !setupVolume_shape by assumption.
    repeat split; (assumption || lia).
  - apply list_elem_of_singleton in Hv as ->.
    split; [lia|]. eexists _, _, _, _.
    rewrite Hnv, Hnc, Hno. repeat split; lia.
Qed.

Lemma volumesGood_staged g sd ni raw : volumesGood (staged g sd ni raw).
Proof. intros v Hv. cbn in Hv. by apply elem_of_nil in Hv. Qed.

Lemma reachable_volumesGood s : reachable s → volumesGood s.
Proof.
  induction 1 as [g j | s j id Hr IH].
  - destruct (setupWindows_unfold j g) as (sd & ni & raw & H).
    cbv zeta in H.
    destruct H as [(_ & _ & _ & _ & ->) | [(_ & _ & _ & ->) | (_ & _ & ->)]];
      auto using volumesGood_setupVolume, volumesGood_setupField,
        volumesGood_staged, wf_setupField, wf_staged.
  - rewrite updateLacLut_unfold.
    apply volumesGood_setupVolume;
      [auto using wf_setupField, wf_reload, reachable_wf|].
    apply volumesGood_setupField. exact IH.
Qed.

Lemma setupField_kind scalar0 n1 n2 n3 s :
  kindOf (device (exec (setupField scalar0 n1 n2 n3) s)) (nextHandle (device s)) =
  Some (SpatialField "structuredRegular").
Proof.
  unfold kindOf. destruct (supported (sdata (m_state s))) eqn:Hs.
  - destruct (setupField_supported scalar0 n1 n2 n3 s Hs)
      as (mem & ty & _ & -> & _). reflexivity.
  - destruct (setupField_unsupported scalar0 n1 n2 n3 s Hs)
      as (_ & (refs & ->) & _). reflexivity.
Qed.

Lemma reachable_bound_below s :
  reachable s →
  ∃ v, boundVolumes s = Some [v] ∧ v < nextHandle (device s).
Proof.
  intros Hr. destruct (reachable_built s Hr) as (m & Hm & -> & _).
  destruct (setupVolume_bound m Hm) as (_ & Hb & _).
  pose proof (setupVolume_frame m) as (_ & _ & En & _).
  exists (nextHandle (device m)). split; [exact Hb | lia].
Qed.

(** *** Releases *)

Lemma releases_NoDup (l : list N) (x : N) :
  NoDup l → x ∈ l → count_occ N.eq_dec l x = 1%nat.
Proof.
  induction 1 as [|y l Hy Hl IH]; intros Hx.
  - by apply elem_of_nil in Hx.
  - cbn. destruct (N.eq_dec y x) as [->|Hne].
    + f_equal. apply count_occ_not_In. rewrite <- list_elem_of_In. exact Hy.
    + apply elem_of_cons in Hx as [->|Hx]; [congruence | auto].
Qed.

Lemma releases_absent (l : list N) (x : N) :
  x ∉ l → count_occ N.eq_dec l x = 0%nat.
Proof. intros Hx. apply count_occ_not_In. by rewrite <- list_elem_of_In. Qed.

Lemma boundThenReleased_app w v log l :
  boundThenReleased w v log → boundThenReleased w v (log ++ l).
Proof.
  intros (l1 & l2 & l3 & a & -> & Ha). exists l1, l2, (l3 ++ l), a.
  split; [|exact Ha]. rewrite <- !app_assoc. reflexivity.
Qed.

Lemma boundThenReleased_volumeCalls log v w f r :
  boundThenReleased w v (log ++ volumeCalls v w f r).
Proof.
  exists (log ++ firstn 12 (volumeCalls v w f r)), [Release (v + 3)],
    [CommitParameters w], (v + 3).
  split.
  - rewrite <- app_assoc. reflexivity.
  - apply elem_of_app. right. apply list_elem_of_In. cbn. tauto.
Qed.

Lemma logGood_staged g sd ni raw : logGood (staged g sd ni raw).
Proof.
  unfold logGood, staged; cbn. split; [|split; [|split]].
  - intros h Hh. by apply elem_of_nil in Hh.
  - apply NoDup_nil. exact I.
  - intros v Hv. by apply elem_of_nil in Hv.
  - intros Hf. congruence.
Qed.

Lemma logGood_reload lacLutId s : logGood s → logGood (reload lacLutId s).
Proof. unfold logGood, reload. destruct s as [d a g]; cbn. tauto. Qed.

Lemma logGood_setupField scalar0 n1 n2 n3 s :
  wf s → logGood s → supported (sdata (m_state s)) = true →
  logGood (exec (setupField scalar0 n1 n2 n3) s).
Proof.
  intros (Hw & _) (Hlt & Hnd & Hvol & _) Hs.
  pose proof (setupField_frame scalar0 n1 n2 n3 s)
    as (Ew & Ef & _ & _ & _ & _ & _ & En).
  cbv zeta in Ew, Ef, En. rewrite Hs in En.
  destruct (setupField_supported scalar0 n1 n2 n3 s Hs)
    as (mem & ty & _ & Hobjf & _ & Hcalls & _).
  unfold logGood. cbv zeta. rewrite Ew, Ef, En, Hcalls.
  rewrite released_app, createdVolumes_app. cbn. rewrite app_nil_r.
  split; [|split; [|split]].
  - intros h Hh. apply elem_of_app in Hh as [Hh | Hh].
    + apply Hlt in Hh. lia.
    + apply list_elem_of_singleton in Hh as ->. lia.
  - apply NoDup_app. split; [exact Hnd|]. split; [|apply NoDup_singleton].
    intros h Hh Hin. apply list_elem_of_singleton in Hin as ->.
    apply Hlt in Hh. lia.
  - intros v Hv. destruct (Hvol v Hv) as (Hr & Hb). split.
    + apply elem_of_app. left. exact Hr.
    + apply boundThenReleased_app. exact Hb.
  - intros _. split; [lia|]. split; [lia|]. split.
    + intros Hin. apply elem_of_app in Hin as [Hin | Hin].
      * apply Hlt in Hin. lia.
      * apply list_elem_of_singleton in Hin. lia.
    + unfold refsOf. rewrite Hobjf. reflexivity.
Qed.

Lemma logGood_setupVolume s :
  wf s → logGood s → logGood (exec setupVolume s).
Proof.
  intros Hwf (Hlt & Hnd & Hvol & Hfield).
  pose proof Hwf as (Hw & _).
  destruct (setupVolume_bound s Hwf) as (Hc & _).
  pose proof (setupVolume_frame s) as (Em & _ & En & _).
  pose proof (setupVolume_objects s) as Hobj. cbv zeta in Hobj.
  destruct Hobj as (_ & _ & _ & _ & _ & Hframe); [lia|].
  rewrite Em in Hc.
  unfold logGood. cbv zeta. rewrite Em, En, Hc.
  rewrite released_app, createdVolumes_app. cbn.
  set (n := nextHandle (device s)) in *.
  split; [|split; [|split]].
  - intros h Hh. apply elem_of_app in Hh as [Hh | Hh].
    + apply Hlt in Hh. lia.
    + apply list_elem_of_In in Hh. cbn in Hh. lia.
  - apply NoDup_app. split; [exact Hnd|]. split.
    + intros h Hh Hin. apply Hlt in Hh.
      apply list_elem_of_In in Hin. cbn in Hin. lia.
    + apply NoDup_ListNoDup. repeat constructor; cbn; lia.
  - intros v Hv. apply elem_of_app in Hv as [Hv | Hv].
    + destruct (Hvol v Hv) as (Hr & Hb). split.
      * apply elem_of_app. left. exact Hr.
      * apply boundThenReleased_app. exact Hb.
    + apply list_elem_of_singleton in Hv as ->. split.
      * apply elem_of_app. right. apply list_elem_of_In. cbn. tauto.
      * apply boundThenReleased_volumeCalls.
  - intros Hf. destruct (Hfield Hf) as (Hfl & Hfw & Hfr & Hrefs).
    split; [lia|]. split; [exact Hfw|]. split.
    + intros Hin. apply elem_of_app in Hin as [Hin | Hin]; [exact (Hfr Hin)|].
      apply list_elem_of_In in Hin. cbn in Hin. lia.
    + unfold refsOf in *. rewrite Hframe; [exact Hrefs | exact Hfw | lia].
Qed.

Lemma successful_built scalar0 n1 n2 n3 m0 :
  wf m0 →
  successful (exec setupVolume (exec (setupField scalar0 n1 n2 n3) m0)) = true →
  supported (sdata (m_state m0)) = true.
Proof.
  intros (Hw & _). unfold successful.
  destruct (setupVolume_frame (exec (setupField scalar0 n1 n2 n3) m0)) as (-> & _).
  pose proof (setupField_frame scalar0 n1 n2 n3 m0) as (_ & -> & -> & _).
  intros H. apply orb_true_iff in H as [H | H]; [|exact H].
  apply N.eqb_eq in H. unfold nullptr in H. lia.
Qed.

Lemma logGood_setup g scalar0 :
  successful (exec (setupWindows scalar0) (start g)) = true →
  logGood (exec (setupWindows scalar0) (start g)).
Proof.
  destruct (setupWindows_unfold scalar0 g) as (sd & ni & raw & H).
  cbv zeta in H.
  destruct H as [(_ & _ & _ & _ & ->) | [(_ & _ & _ & ->) | (_ & _ & ->)]];
    intros Hs.
  - apply logGood_setupVolume; [auto using wf_setupField, wf_staged|].
    apply logGood_setupField; [apply wf_staged | apply logGood_staged |].
    eapply successful_built; [apply wf_staged | exact Hs].
  - apply logGood_setupVolume; [auto using wf_setupField, wf_staged|].
    apply logGood_setupField; [apply wf_staged | apply logGood_staged |].
    eapply successful_built; [apply wf_staged | exact Hs].
  - apply logGood_setupVolume; [apply wf_staged | apply logGood_staged].
Qed.

Lemma logGood_update scalar0 lacLutId s :
  reachable s → logGood s →
  successful (exec (updateLacLut scalar0 lacLutId) s) = true →
  logGood (exec (updateLacLut scalar0 lacLutId) s).
Proof.
  intros Hr Hg. rewrite updateLacLut_unfold. cbv zeta. intros Hs.
  pose proof (wf_reload lacLutId s (reachable_wf s Hr)) as Hwf.
  apply logGood_setupVolume; [auto using wf_setupField|].
  apply logGood_setupField; [exact Hwf | apply logGood_reload; exact Hg |].
  eapply successful_built; [exact Hwf | exact Hs].
Qed.

Lemma createdVolumes_update scalar0 lacLutId s :
  reachable s →
  length (createdVolumes (calls (device (exec (updateLacLut scalar0 lacLutId) s)))) =
  S (length (createdVolumes (calls (device s)))).
Proof.
  intros Hr. rewrite updateLacLut_unfold. cbv zeta.
  pose proof (wf_reload lacLutId s (reachable_wf s Hr)) as Hwf.
  match goal with |- context [exec setupVolume ?m] =>
    destruct (setupVolume_bound m (wf_setupField _ _ _ _ _ Hwf)) as (-> & _)
  end.
  rewrite createdVolumes_app, setupField_createdVolumes, length_app. cbn. lia.
Qed.

Lemma createdVolumes_setup scalar0 g :
  length (createdVolumes (calls (device (exec (setupWindows scalar0) (start g))))) =
  1%nat.
Proof.
  destruct (setupWindows_unfold scalar0 g) as (sd & ni & raw & H).
  cbv zeta in H.
  destruct H as [(_ & _ & _ & _ & ->) | [(_ & _ & _ & ->) | (_ & _ & ->)]].
  - match goal with |- context [exec setupVolume ?m] =>
      destruct (setupVolume_bound m (wf_setupField _ _ _ _ _ (wf_staged g sd ni raw)))
        as (-> & _)
    end.
    rewrite createdVolumes_app, setupField_createdVolumes. reflexivity.
  - match goal with |- context [exec setupVolume ?m] =>
      destruct (setupVolume_bound m (wf_setupField _ _ _ _ _ (wf_staged g sd ni raw)))
        as (-> & _)
    end.
    rewrite createdVolumes_app, setupField_createdVolumes. reflexivity.
  - destruct (setupVolume_bound _ (wf_staged g sd ni raw)) as (-> & _).
    rewrite createdVolumes_app. reflexivity.
Qed.

Lemma changes_good evs : ∀ s,
  reachable s → logGood s → allSuccessful evs s = true →
  reachable (changes evs s) ∧ logGood (changes evs s)
  ∧ length (createdVolumes (calls (device (changes evs s)))) =
    (length (createdVolumes (calls (device s))) + length evs)%nat.
Proof.
  induction evs as [|[j id] evs IH]; intros s Hr Hg Hs; cbn in *.
  - split; [exact Hr|]. split; [exact Hg|]. lia.
  - apply andb_true_iff in Hs as [_ Hs].
    assert (successful (exec (updateLacLut j id) s) = true) as Hs1.
    { destruct evs as [|[j' id'] evs']; cbn in Hs;
        [apply andb_true_iff in Hs as [Hs _]; exact Hs
        | apply andb_true_iff in Hs as [Hs _]; exact Hs]. }
    destruct (IH (exec (updateLacLut j id) s)) as (Hr' & Hg' & Hl').
    + apply reach_update. exact Hr.
    + apply logGood_update; assumption.
    + exact Hs.
    + split; [exact Hr'|]. split; [exact Hg'|].
      rewrite Hl', createdVolumes_update by exact Hr. lia.
Qed.

(** *** Conversions *)

Lemma uint64_of_int_small (z : Z) :
  (0 < z < 2 ^ 31)%Z → uint64_of_int z = Z.to_N z.
Proof. intros Hz. unfold uint64_of_int. rewrite Z.mod_small; [done | lia]. Qed.

(** * The claims *)

(** C1 (as the code has it).  Over a session of [setupWindows] and any
    number of successful changes of the lookup table, every build
    creates one volume; the handle of every volume created is released
    exactly once, after the array holding it has been set as the world's
    ["volume"]; no handle is released twice; and the latest generation
    stays: its field handle has not been released and still carries the
    application's reference, and its volume is the one bound in the
    world. *)
Theorem builds_release_their_volume_once
    (g : Globals) (scalar0 : Object) (evs : list (Object * N)) :
  allSuccessful evs (exec (setupWindows scalar0) (start g)) = true →
  let s := session g scalar0 evs in
  let log := calls (device s) in
  length (createdVolumes log) = S (length evs)
  ∧ (∀ v, v ∈ createdVolumes log →
       releases v log = 1%nat ∧ boundThenReleased (world (m_state s)) v log)
  ∧ NoDup (released log)
  ∧ (field (m_state s) ≠ nullptr →
       releases (field (m_state s)) log = 0%nat
       ∧ refsOf (device s) (field (m_state s)) = Some 1)
  ∧ ∃ v, newestVolume log = Some v ∧ boundVolumes s = Some [v].
Proof.
  intros Hs. cbv zeta. unfold session.
  assert (successful (exec (setupWindows scalar0) (start g)) = true) as Hs0.
  { destruct evs as [|[j id] evs']; cbn in Hs;
      apply andb_true_iff in Hs as [Hs _]; exact Hs. }
  destruct (changes_good evs (exec (setupWindows scalar0) (start g)))
    as (Hr & (Hlt & Hnd & Hvol & Hfield) & Hlen).
  { apply reach_setup. }
  { apply logGood_setup. exact Hs0. }
  { exact Hs. }
  rewrite createdVolumes_setup in Hlen.
  split; [exact Hlen|]. split; [|split; [exact Hnd|split]].
  - intros v Hv. destruct (Hvol v Hv) as (Hrel & Hb).
    split; [|exact Hb]. apply releases_NoDup; assumption.
  - intros Hf. destruct (Hfield Hf) as (_ & _ & Hnot & Hrefs).
    split; [|exact Hrefs]. apply releases_absent. exact Hnot.
  - destruct (reachable_built _ Hr) as (m & Hm & -> & _).
    destruct (setupVolume_bound m Hm) as (-> & Hb & _).
    exists (nextHandle (device m)).
    split; [apply newestVolume_volumeCalls | exact Hb].
Qed.

(** *** The rebuild when the reader fails *)

Context {RF : ReaderFailure}.

(** When [getField] returns, the lambda is [updateLacLut]. *)
Lemma updateLacLutCallback_returns (scalar0 : Object) (lacLutId : N) (s : Machine) :
  nifti_getField_throws 0 (lac_setActiveLut lacLutId (lacReader (m_state s)))
    (niftiReader (m_state s)) = false →
  updateLacLutCallback scalar0 lacLutId s =
  (Normal tt, exec (updateLacLut scalar0 lacLutId) s).
Proof.
  rewrite updateLacLut_unfold. unfold reload.
  destruct s as [[n objs log rel] [w f sd lac ni raw] g].
  cbn [m_state lacReader niftiReader device globals world field rawReader].
  intros H.
  cbv beta iota zeta delta
    [updateLacLutCallback mbind mret Try_bind Try_ret try_bind lift throw
     gets modify compose set_lacReader set_niftiReader set_sdata exec
     fst snd m_state device globals world field sdata lacReader niftiReader
     rawReader].
  rewrite H.
  cbv beta iota zeta delta
    [try_bind lift gets modify compose set_niftiReader set_sdata
     fst snd m_state device globals world field sdata lacReader niftiReader
     rawReader].
  destruct (nifti_getField 0 (lac_setActiveLut lacLutId lac) ni) as [d ni'].
  destruct (setupField _ _ _ _ _) as [[] m].
  destruct (setupVolume m) as [[] m']. reflexivity.
Qed.

(** C2.  When the medical-image reader signals failure during a change
    of the lookup table, the exception leaves the lambda at the call of
    [getField], before the first call on the device: no object is
    created, nothing is set, committed or released, [m_state.field],
    [m_state.sdata] and [g_voxelRange] are as they were, and the volume
    that was bound in the world still is. *)
Theorem reader_failure_aborts_the_rebuild
    (scalar0 : Object) (lacLutId : N) (s : Machine) :
  reachable s →
  nifti_getField_throws 0 (lac_setActiveLut lacLutId (lacReader (m_state s)))
    (niftiReader (m_state s)) = true →
  let r := updateLacLutCallback scalar0 lacLutId s in
  r.1 = Thrown
  ∧ device r.2 = device s
  ∧ world (m_state r.2) = world (m_state s)
  ∧ field (m_state r.2) = field (m_state s)
  ∧ sdata (m_state r.2) = sdata (m_state s)
  ∧ globals r.2 = globals s
  ∧ ∃ v, boundVolumes s = Some [v] ∧ boundVolumes r.2 = Some [v]
      ∧ kindOf (device r.2) v = Some (Volume "transferFunction1D").
Proof.
  intros Hr Hthrows. cbv zeta.
  assert (∃ v, boundVolumes s = Some [v]
             ∧ kindOf (device s) v = Some (Volume "transferFunction1D"))
    as (v & Hb & Hk).
  { destruct (reachable_built s Hr) as (m & Hm & -> & _).
    destruct (setupVolume_bound m Hm) as (_ & Hb & _ & Hv & _).
    exists (nextHandle (device m)). split; [exact Hb|].
    unfold kindOf. rewrite Hv. reflexivity. }
  destruct s as [[n objs log rel] [w f sd lac ni raw] g].
  cbn [m_state lacReader niftiReader] in Hthrows.
  cbv beta iota zeta delta
    [updateLacLutCallback mbind mret Try_bind Try_ret try_bind lift throw
     gets modify compose set_lacReader set_niftiReader set_sdata
     fst snd m_state device globals world field sdata lacReader niftiReader
     rawReader].
  rewrite Hthrows.
  cbv beta iota zeta delta
    [try_bind lift throw gets modify compose set_niftiReader
     fst snd m_state device globals world field sdata lacReader niftiReader
     rawReader].
  split; [reflexivity|]. split; [reflexivity|]. split; [reflexivity|].
  split; [reflexivity|]. split; [reflexivity|]. split; [reflexivity|].
  exists v. split; [exact Hb|]. split; [exact Hb | exact Hk].
Qed.

(** C3 (the code differs).  For a field whose byte width is none of 1, 2
    and 4, the field construction creates no array, but it still calls
    [setAndReleaseParameter]: the ["data"] parameter of the field is
    set, and committed, to the handle the uninitialised local [scalar]
    happens to hold, and that same handle is released. *)
Theorem unsupported_width_sets_data_to_the_uninitialised_handle
    (scalar0 : Object) (n1 n2 n3 : Z) (s : Machine) :
  supported (sdata (m_state s)) = false →
  let s' := exec (setupField scalar0 n1 n2 n3) s in
  let f := field (m_state s') in
  calls (device s') =
    calls (device s) ++
    [ NewObject f (SpatialField "structuredRegular");
      SetParameter f "data" (VObject ANARI_ARRAY3D scalar0);
      Release scalar0;
      SetParameter f "filter" (VString "linear");
      CommitParameters f ]
  ∧ pendingParam (device s') f "data" = Some (VObject ANARI_ARRAY3D scalar0)
  ∧ committedParam (device s') f "data" = Some (VObject ANARI_ARRAY3D scalar0).
Proof.
  intros Hs. cbv zeta.
  pose proof (setupField_frame scalar0 n1 n2 n3 s) as (_ & -> & _).
  destruct (setupField_unsupported scalar0 n1 n2 n3 s Hs)
    as (Hcalls & (refs & Hobj) & _).
  split; [exact Hcalls|].
  unfold pendingParam, committedParam. rewrite Hobj. cbn.
  split; apply fieldParams_lookup.
Qed.

(** C4.  When the generation of a reachable state was built from a field
    of 1, 2 or 4 bytes per cell with positive [int] extents (and the raw
    reader serves the grid it was opened with), then [m_state.field] is a
    committed structured-regular field whose ["data"] is an array [a]
    over the buffer of that width, of the matching element type
    (UFIXED8, UFIXED16, FLOAT32), with the extents of the grid and so
    [dimX * dimY * dimZ] elements; the application has released its
    reference to [a] after setting it, and ["filter"] is "linear". *)
Theorem field_is_built_over_the_voxel_buffer (s : Machine) :
  let data := sdata (m_state s) in
  let f := field (m_state s) in
  rawServesDeclaredGrid →
  reachable s →
  f ≠ nullptr →
  supported data = true →
  (0 < dimX data < 2 ^ 31)%Z → (0 < dimY data < 2 ^ 31)%Z →
  (0 < dimZ data < 2 ^ 31)%Z →
  ∃ a mem ty,
    ((bytesPerCell data = 1 ∧ mem = MemUI8 (dataUI8 data) ∧ ty = ANARI_UFIXED8)
     ∨ (bytesPerCell data = 2 ∧ mem = MemUI16 (dataUI16 data) ∧ ty = ANARI_UFIXED16)
     ∨ (bytesPerCell data = 4 ∧ mem = MemF32 (dataF32 data) ∧ ty = ANARI_FLOAT32))
    ∧ objects (device s) !! a =
        Some (mkObject (Array3D mem ty (Z.to_N (dimX data)) (Z.to_N (dimY data))
                          (Z.to_N (dimZ data))) 0 ∅ ∅)
    ∧ numItems <$> kindOf (device s) a =
        Some (Z.to_N (dimX data * dimY data * dimZ data))
    ∧ objects (device s) !! f =
        Some (mkObject (SpatialField "structuredRegular") 1
                (fieldParams a) (fieldParams a))
    ∧ fieldParams a !! "data" = Some (VObject ANARI_ARRAY3D a)
    ∧ fieldParams a !! "filter" = Some (VString "linear")
    ∧ Release a ∈ calls (device s).
Proof.
  cbv zeta. intros Hraw Hr Hf Hs Hx Hy Hz.
  destruct (reachable_built s Hr) as (m & Hm & -> & Hcase).
  pose proof (setupVolume_frame m) as (Em & _ & _ & Ec).
  rewrite Em in *.
  destruct Hcase as [(m0 & j & n1 & n2 & n3 & Hm0 & -> & Hdims) | (Hnull & _)];
    [| congruence].
  pose proof (setupField_frame j n1 n2 n3 m0)
    as (Ew & Efield & Esd & _ & _ & _ & _ & En).
  cbv zeta in Ew, Efield, Esd, En. rewrite Esd in *. rewrite Hs in En.
  assert (n1 = dimX (sdata (m_state m0)) ∧ n2 = dimY (sdata (m_state m0))
          ∧ n3 = dimZ (sdata (m_state m0))) as (En1 & En2 & En3).
  { destruct Hdims as [H | (g & Hopen & Hsd & -> & -> & ->)]; [exact H|].
    unfold rawOpens in Hopen. apply andb_true_iff in Hopen as [_ Hopen].
    rewrite Hsd. destruct (Hraw _ _ _ _ _ _ Hopen) as (E1 & E2 & E3).
    rewrite E1, E2, E3. repeat split; reflexivity. }
  destruct (setupField_supported j n1 n2 n3 m0 Hs)
    as (mem & ty & Hty & Hobjf & Hobja & Hcalls & _).
  rewrite <- En1 in *. rewrite <- En2 in *. rewrite <- En3 in *.
  rewrite !uint64_of_int_small in Hobja by assumption.
  destruct Hm as (Hw & _). destruct Hm0 as (Hw0 & _).
  rewrite Ew, En in Hw.
  pose proof (setupVolume_objects (exec (setupField j n1 n2 n3) m0)) as Hobj.
  cbv zeta in Hobj. rewrite Ew, En in Hobj.
  destruct Hobj as (_ & _ & _ & _ & _ & Hframe); [lia|].
  exists (nextHandle (device m0) + 1), mem, ty.
  split; [exact Hty|]. rewrite Efield. unfold kindOf.
  rewrite !Hframe by lia. rewrite Hobja, Hobjf.
  split; [reflexivity|]. split.
  { cbn. f_equal. rewrite !Z2N.inj_mul by lia. reflexivity. }
  split; [reflexivity|].
  split; [apply fieldParams_lookup|]. split; [apply fieldParams_lookup|].
  rewrite Ec, Hcalls. apply elem_of_app. left. apply elem_of_app. right.
  apply list_elem_of_In. cbn. tauto.
Qed.

(** *** What a build binds *)

Lemma setupField_calls scalar0 n1 n2 n3 s :
  ∃ log1,
    calls (device (exec (setupField scalar0 n1 n2 n3) s)) = calls (device s) ++ log1
    ∧ createdVolumes log1 = [].
Proof.
  destruct (supported (sdata (m_state s))) eqn:Hs.
  - destruct (setupField_supported scalar0 n1 n2 n3 s Hs)
      as (mem & ty & _ & _ & _ & Hc & _).
    eexists. split; [exact Hc | reflexivity].
  - destruct (setupField_unsupported scalar0 n1 n2 n3 s Hs) as (Hc & _ & _).
    eexists. split; [exact Hc | reflexivity].
Qed.

Lemma setupVolume_binds (m : Machine) :
  wf m →
  let s := exec setupVolume m in
  let v := nextHandle (device m) in
  objects (device m) !! v = None
  ∧ calls (device s) =
      calls (device m) ++
      volumeCalls v (world (m_state s)) (field (m_state s)) (g_voxelRange (globals s))
  ∧ createdVolumes (calls (device s)) = createdVolumes (calls (device m)) ++ [v]
  ∧ boundVolumes s = Some [v]
  ∧ pendingParam (device s) (world (m_state s)) "volume" =
    committedParam (device s) (world (m_state s)) "volume"
  ∧ kindOf (device s) v = Some (Volume "transferFunction1D").
Proof.
  intros Hm. cbv zeta.
  destruct (setupVolume_bound m Hm) as (Hc & Hb & Hp & Hv & _).
  destruct Hm as (_ & Hfresh & _).
  split; [apply Hfresh; lia|]. split; [exact Hc|].
  split; [rewrite Hc, createdVolumes_app; reflexivity|].
  split; [exact Hb|]. split; [exact Hp|].
  unfold kindOf. rewrite Hv. reflexivity.
Qed.

(** C5.  Every build binds the volume it has just built.  Start-up, in
    whose initial state nothing is bound, creates one volume [v]; a
    change of the lookup table in a state that binds [v0] creates one
    more volume [v], under a handle that named no object before.  In
    both cases the calls of the build end with the construction of [v],
    the setting of a one-element array holding [v] as the world's
    ["volume"] and the commit of the world, and in the state the build
    leaves the committed ["volume"] of the world is the array of [v]
    alone, with no uncommitted change pending: after a change [v0] is
    bound no more. *)
Theorem world_binds_the_new_volume :
  (∀ (g : Globals) (scalar0 : Object),
     let s := exec (setupWindows scalar0) (start g) in
     boundVolumes (start g) = None
     ∧ ∃ v log0,
         calls (device s) =
           log0 ++ volumeCalls v (world (m_state s)) (field (m_state s))
                     (g_voxelRange (globals s))
         ∧ createdVolumes (calls (device s)) = [v]
         ∧ boundVolumes s = Some [v]
         ∧ pendingParam (device s) (world (m_state s)) "volume" =
           committedParam (device s) (world (m_state s)) "volume"
         ∧ kindOf (device s) v = Some (Volume "transferFunction1D"))
  ∧ (∀ (s : Machine) (scalar0 : Object) (lacLutId : N),
       reachable s →
       let s' := exec (updateLacLut scalar0 lacLutId) s in
       ∃ v0 v log1,
         boundVolumes s = Some [v0]
         ∧ v0 < nextHandle (device s) < v
         ∧ objects (device s) !! v = None
         ∧ calls (device s') =
             calls (device s) ++ log1 ++
             volumeCalls v (world (m_state s')) (field (m_state s'))
               (g_voxelRange (globals s'))
         ∧ createdVolumes (calls (device s')) =
             createdVolumes (calls (device s)) ++ [v]
         ∧ boundVolumes s' = Some [v]
         ∧ pendingParam (device s') (world (m_state s')) "volume" =
           committedParam (device s') (world (m_state s')) "volume"
         ∧ kindOf (device s') v = Some (Volume "transferFunction1D")).
Proof.
  split.
  - intros g j. cbv zeta. split.
    { unfold boundVolumes, committedParam, start, newDevice.
      cbn [device m_state world objects]. rewrite lookup_empty. reflexivity. }
    destruct (setupWindows_unfold j g) as (sd & ni & raw & H).
    cbv zeta in H.
    destruct H as [(_ & _ & _ & _ & ->) | [(_ & _ & _ & ->) | (_ & _ & ->)]].
    + match goal with |- context [exec setupVolume ?m] =>
        destruct (setupVolume_binds m (wf_setupField _ _ _ _ _ (wf_staged g sd ni raw)))
          as (_ & Hc & Hcv & Hb & Hp & Hk)
      end.
      rewrite setupField_createdVolumes in Hcv.
      eexists _, _. split; [exact Hc|]. split; [exact Hcv|].
      split; [exact Hb|]. split; [exact Hp | exact Hk].
    + match goal with |- context [exec setupVolume ?m] =>
        destruct (setupVolume_binds m (wf_setupField _ _ _ _ _ (wf_staged g sd ni raw)))
          as (_ & Hc & Hcv & Hb & Hp & Hk)
      end.
      rewrite setupField_createdVolumes in Hcv.
      eexists _, _. split; [exact Hc|]. split; [exact Hcv|].
      split; [exact Hb|]. split; [exact Hp | exact Hk].
    + destruct (setupVolume_binds _ (wf_staged g sd ni raw))
        as (_ & Hc & Hcv & Hb & Hp & Hk).
      eexists _, _. split; [exact Hc|]. split; [exact Hcv|].
      split; [exact Hb|]. split; [exact Hp | exact Hk].
  - intros s j id Hr. cbv zeta.
    destruct (reachable_bound_below s Hr) as (v0 & Hb0 & Hv0).
    pose proof (reachable_wf s Hr) as Hwf.
    pose proof (wf_reload id s Hwf) as Hwf1.
    rewrite updateLacLut_unfold. cbv zeta.
    set (m1 := reload id s) in *.
    set (data := sdata (m_state m1)).
    pose proof (setupField_frame j (dimX data) (dimY data) (dimZ data) m1)
      as (_ & _ & _ & _ & _ & _ & _ & En).
    cbv zeta in En.
    destruct (setupField_calls j (dimX data) (dimY data) (dimZ data) m1)
      as (log1 & Hc1 & Hcv1).
    pose proof (setupField_createdVolumes j (dimX data) (dimY data) (dimZ data) m1)
      as Hcvf.
    destruct (setupVolume_binds _
                (wf_setupField j (dimX data) (dimY data) (dimZ data) m1 Hwf1))
      as (_ & Hc & Hcv & Hb & Hp & Hk).
    set (m := exec (setupField j (dimX data) (dimY data) (dimZ data)) m1) in *.
    change (nextHandle (device m1)) with (nextHandle (device s)) in En.
    change (calls (device m1)) with (calls (device s)) in Hc1, Hcvf.
    assert (nextHandle (device s) < nextHandle (device m)) as Hlt.
    { rewrite En. destruct (supported (sdata (m_state m1))); lia. }
    exists v0, (nextHandle (device m)), log1.
    split; [exact Hb0|]. split; [lia|].
    split; [destruct Hwf as (_ & Hfresh & _); apply Hfresh; lia|].
    split; [rewrite Hc, Hc1, <- app_assoc; reflexivity|].
    split; [rewrite Hcv, Hcvf; reflexivity|].
    split; [exact Hb|]. split; [exact Hp | exact Hk].
Qed.

(** C6.  When the generation of a reachable state was built from a
    loaded field ([m_state.field] is not the null handle), the volume
    bound in the world carries, set and committed, the ["valueRange"]
    box whose bounds are [dataRange.x] and [dataRange.y] of that field,
    as they are. *)
Theorem value_range_is_the_data_range (s : Machine) :
  reachable s →
  field (m_state s) ≠ nullptr →
  ∃ v, boundVolumes s = Some [v]
    ∧ pendingParam (device s) v "valueRange" =
        Some (VBox1 (dataRange (sdata (m_state s))).1
                (dataRange (sdata (m_state s))).2)
    ∧ committedParam (device s) v "valueRange" =
        Some (VBox1 (dataRange (sdata (m_state s))).1
                (dataRange (sdata (m_state s))).2).
Proof.
  intros Hr Hf. destruct (reachable_built s Hr) as (m & Hm & -> & Hcase).
  destruct (setupVolume_bound m Hm) as (_ & Hb & _ & Hv & _).
  pose proof (setupVolume_frame m) as (Em & Eg & _).
  rewrite Em in Hf. rewrite Em, Eg in Hv. rewrite Em.
  destruct Hcase as [(m0 & j & n1 & n2 & n3 & _ & -> & _) | (Hnull & _)];
    [| congruence].
  pose proof (setupField_frame j n1 n2 n3 m0)
    as (_ & _ & Esd & _ & _ & _ & Er & _).
  cbv zeta in Esd, Er. rewrite Er in Hv. rewrite Esd.
  exists (nextHandle (device (exec (setupField j n1 n2 n3) m0))).
  split; [exact Hb|].
  unfold pendingParam, committedParam. rewrite Hv. cbn.
  split; apply volumeParams_lookup.
Qed.

(** C7.  In every reachable state, every volume created so far has its
    ["value"] and its ["field"] parameter set, and committed, to one and
    the same field handle; for the volume bound in the world that handle
    is [m_state.field]. *)
Theorem value_and_field_name_the_same_field (s : Machine) :
  reachable s →
  (∀ v, v ∈ createdVolumes (calls (device s)) →
     ∃ f, pendingParam (device s) v "value" = Some (VObject ANARI_SPATIAL_FIELD f)
        ∧ pendingParam (device s) v "field" = Some (VObject ANARI_SPATIAL_FIELD f)
        ∧ committedParam (device s) v "value" = Some (VObject ANARI_SPATIAL_FIELD f)
        ∧ committedParam (device s) v "field" = Some (VObject ANARI_SPATIAL_FIELD f))
  ∧ ∃ v, boundVolumes s = Some [v]
      ∧ v ∈ createdVolumes (calls (device s))
      ∧ committedParam (device s) v "value" =
          Some (VObject ANARI_SPATIAL_FIELD (field (m_state s)))
      ∧ committedParam (device s) v "field" =
          Some (VObject ANARI_SPATIAL_FIELD (field (m_state s))).
Proof.
  intros Hr. split.
  - intros v Hv.
    destruct (reachable_volumesGood s Hr v Hv) as (_ & f & r & c & o & Hsv & _).
    exists f. unfold pendingParam, committedParam.
    destruct (objects (device s) !! v) as [ob|]; [|discriminate Hsv].
    unfold shape in Hsv. cbn in Hsv. cbn. injection Hsv as _ -> ->.
    repeat split; apply volumeParams_lookup.
  - destruct (reachable_built s Hr) as (m & Hm & -> & _).
    destruct (setupVolume_bound m Hm) as (Hc & Hb & _ & Hv & _).
    exists (nextHandle (device m)). split; [exact Hb|]. split.
    + rewrite Hc, createdVolumes_app. cbn. apply elem_of_app. right.
      apply list_elem_of_singleton. reflexivity.
    + unfold committedParam. rewrite Hv. cbn. split; apply volumeParams_lookup.
Qed.

(** C8.  In every reachable state, every volume created so far has as
    ["color"] an array of exactly the three colours blue (0,0,1), green
    (0,1,0), red (1,0,0), in this order, and as ["opacity"] an array of
    exactly the two opacities 0 and 1, in this order. *)
Theorem ramp_is_blue_green_red (s : Machine) :
  reachable s →
  ∀ v, v ∈ createdVolumes (calls (device s)) →
    ∃ c o,
      committedParam (device s) v "color" = Some (VObject ANARI_ARRAY1D c)
      ∧ kindOf (device s) c =
          Some (Array1D (MemFloat3 [Float3 0 0 1; Float3 0 1 0; Float3 1 0 0]%float)
                  ANARI_FLOAT32_VEC3 3)
      ∧ committedParam (device s) v "opacity" = Some (VObject ANARI_ARRAY1D o)
      ∧ kindOf (device s) o =
          Some (Array1D (MemF32 [0; 1]%float) ANARI_FLOAT32 2).
Proof.
  intros Hr v Hv.
  destruct (reachable_volumesGood s Hr v Hv)
    as (_ & f & r & c & o & Hsv & _ & _ & Hsc & Hso).
  exists c, o. unfold committedParam, kindOf.
  destruct (objects (device s) !! v) as [ob|]; [|discriminate Hsv].
  destruct (objects (device s) !! c) as [oc|]; [|discriminate Hsc].
  destruct (objects (device s) !! o) as [oo|]; [|discriminate Hso].
  unfold shape in Hsv, Hsc, Hso. cbn in Hsv, Hsc, Hso.
  cbn. injection Hsv as _ _ ->. injection Hsc as -> _ _. injection Hso as -> _ _.
  repeat split; apply volumeParams_lookup.
Qed.

(** C9.  A change of the lookup table sets the active table and fetches
    the field from the medical-image reader, whatever the state: the
    field kept in [m_state.sdata] is the one [niftiReader.getField]
    returns, the raw reader is left as it was, and what is built is built
    from that field.  In a session that opened a raw file the
    medical-image reader asked is the one that was never opened. *)
Theorem lut_change_reads_the_medical_image
    (scalar0 : Object) (lacLutId : N) (s : Machine) :
  let s' := exec (updateLacLut scalar0 lacLutId) s in
  let lac := lac_setActiveLut lacLutId (lacReader (m_state s)) in
  let got := nifti_getField 0 lac (niftiReader (m_state s)) in
  (lacReader (m_state s') = lac
   ∧ sdata (m_state s') = got.1
   ∧ niftiReader (m_state s') = got.2
   ∧ rawReader (m_state s') = rawReader (m_state s)
   ∧ g_voxelRange (globals s') = dataRange got.1
   ∧ s' = exec setupVolume
            (exec (setupField scalar0 (dimX got.1) (dimY got.1) (dimZ got.1))
               (reload lacLutId s)))
  ∧ ∀ g scalar1,
      rawOpens g = true →
      s = exec (setupWindows scalar1) (start g) →
      sdata (m_state s') =
        (nifti_getField 0 (lac_setActiveLut lacLutId (startLac g))
           newNiftiReader).1.
Proof.
  cbv zeta.
  assert (lacReader (m_state (exec (updateLacLut scalar0 lacLutId) s)) =
            lac_setActiveLut lacLutId (lacReader (m_state s))
          ∧ sdata (m_state (exec (updateLacLut scalar0 lacLutId) s)) =
              (nifti_getField 0 (lac_setActiveLut lacLutId (lacReader (m_state s)))
                 (niftiReader (m_state s))).1) as [Hlac Hsd].
  { rewrite updateLacLut_unfold.
    destruct (setupVolume_frame (exec (setupField scalar0
      (dimX (sdata (m_state (reload lacLutId s))))
      (dimY (sdata (m_state (reload lacLutId s))))
      (dimZ (sdata (m_state (reload lacLutId s))))) (reload lacLutId s)))
      as (-> & _).
    pose proof (setupField_frame scalar0
      (dimX (sdata (m_state (reload lacLutId s))))
      (dimY (sdata (m_state (reload lacLutId s))))
      (dimZ (sdata (m_state (reload lacLutId s)))) (reload lacLutId s))
      as (_ & _ & -> & -> & _).
    split; reflexivity. }
  split.
  - split; [exact Hlac|]. split; [exact Hsd|].
    rewrite updateLacLut_unfold.
    destruct (setupVolume_frame (exec (setupField scalar0
      (dimX (sdata (m_state (reload lacLutId s))))
      (dimY (sdata (m_state (reload lacLutId s))))
      (dimZ (sdata (m_state (reload lacLutId s))))) (reload lacLutId s)))
      as (-> & -> & _).
    pose proof (setupField_frame scalar0
      (dimX (sdata (m_state (reload lacLutId s))))
      (dimY (sdata (m_state (reload lacLutId s))))
      (dimZ (sdata (m_state (reload lacLutId s)))) (reload lacLutId s))
      as (_ & _ & _ & _ & -> & -> & -> & _).
    repeat split; reflexivity.
  - intros g j Hopen ->. rewrite Hsd.
    destruct (setupWindows_unfold j g) as (sd & ni & raw & H).
    cbv zeta in H.
    destruct H as [(_ & _ & -> & _ & ->) | [(E & _) | (E & _)]]; [|congruence..].
    destruct (setupVolume_frame (exec (setupField j (g_dimX g) (g_dimY g)
      (g_dimZ g)) (staged g sd newNiftiReader raw))) as (-> & _).
    pose proof (setupField_frame j (g_dimX g) (g_dimY g) (g_dimZ g)
      (staged g sd newNiftiReader raw)) as (_ & _ & _ & -> & -> & _).
    reflexivity.
Qed.

(** C10.  When neither reader opens the file, [setupWindows] leaves
    [m_state.field] null and still binds a volume: the world's committed
    volume array has the one item 2, a transfer-function volume whose
    ["value"] and ["field"] are the null handle and whose ["valueRange"]
    is the zero-initialised (0, 0).  With or without a source, the world
    ends [setupWindows] with an array of one volume. *)
Theorem setup_without_source_binds_a_volume (g : Globals) (scalar0 : Object) :
  rawOpens g = false →
  niftiOpens g = false →
  let s := exec (setupWindows scalar0) (start g) in
  field (m_state s) = nullptr
  ∧ boundVolumes s = Some [2]
  ∧ kindOf (device s) 2 = Some (Volume "transferFunction1D")
  ∧ committedParam (device s) 2 "value" = Some (VObject ANARI_SPATIAL_FIELD nullptr)
  ∧ committedParam (device s) 2 "field" = Some (VObject ANARI_SPATIAL_FIELD nullptr)
  ∧ committedParam (device s) 2 "valueRange" = Some (VBox1 0%float 0%float)
  ∧ ∀ g' scalar0', ∃ v,
      boundVolumes (exec (setupWindows scalar0') (start g')) = Some [v].
Proof.
  intros Hraw Hnifti. cbv zeta.
  split; [|split; [|split; [|split; [|split; [|split]]]]].
  7: { intros g' j'.
       destruct (reachable_built _ (reach_setup g' j')) as (m & Hm & -> & _).
       destruct (setupVolume_bound m Hm) as (_ & Hb & _).
       eexists. exact Hb. }
  all: destruct (setupWindows_unfold scalar0 g) as (sd & ni & raw & H);
    cbv zeta in H;
    destruct H as [(E & _) | [(_ & E & _) | (_ & _ & ->)]]; [congruence..|];
    destruct (setupVolume_bound _ (wf_staged g sd ni raw)) as (_ & Hb & _ & Hv & _);
    pose proof (setupVolume_frame (staged g sd ni raw)) as (Em & Eg & _).
  - rewrite Em. reflexivity.
  - exact Hb.
  - unfold kindOf. cbn in Hv. rewrite Hv. reflexivity.
  - unfold committedParam. cbn in Hv. rewrite Hv. cbn. rewrite Em.
    apply volumeParams_lookup.
  - unfold committedParam. cbn in Hv. rewrite Hv. cbn. rewrite Em.
    apply volumeParams_lookup.
  - unfold committedParam. cbn in Hv. rewrite Hv. cbn. rewrite Eg.
    apply volumeParams_lookup.
Qed.

End Facts.

(** * Runs on the concrete sources *)

Section Runs.
Import Demo.
Local Open Scope N_scope.

Lemma demo_rawServesDeclaredGrid : rawServesDeclaredGrid.
Proof.
  intros name x y z b r. cbn.
  destruct (String.eqb name "grid.raw"); cbn; intros H;
    [repeat split | discriminate H].
Defined.

(** C1, the claim as stated fails: after start-up on the medical image
    and one change to table 1, both builds successful, the field handle
    2 of the first generation has not been released once but never, and
    still carries the application's reference; [teardown] releases the
    field handle 8 of the second generation only.  The volume handle 4
    of the first generation was released during start-up already, before
    the second generation existed. *)
Lemma prior_field_is_never_released :
  let s1 := exec (updateLacLut 0 1) s_ct in
  successful s_ct = true ∧ successful s1 = true
  ∧ field (m_state s_ct) = 2 ∧ boundVolumes s_ct = Some [4]
  ∧ field (m_state s1) = 8 ∧ boundVolumes s1 = Some [10]
  ∧ releases 4 (calls (device s_ct)) = 1%nat
  ∧ releases 2 (calls (device s1)) = 0%nat
  ∧ releases 2 (calls (device s1)) ≠ 1%nat
  ∧ refsOf (device s1) 2 = Some 1
  ∧ releases 2 (calls (device (exec teardown s1))) = 0%nat
  ∧ releases 8 (calls (device (exec teardown s1))) = 1%nat.
Proof. vm_compute. repeat split. discriminate. Qed.

Lemma builds_release_their_volume_once_witness :
  let s := session g_nifti 0 [(0, 1); (0, 0)] in
  let log := calls (device s) in
  length (createdVolumes log) = 3%nat
  ∧ (∀ v, v ∈ createdVolumes log →
       releases v log = 1%nat ∧ boundThenReleased (world (m_state s)) v log)
  ∧ NoDup (released log)
  ∧ (field (m_state s) ≠ nullptr →
       releases (field (m_state s)) log = 0%nat
       ∧ refsOf (device s) (field (m_state s)) = Some 1)
  ∧ ∃ v, newestVolume log = Some v ∧ boundVolumes s = Some [v].
Proof.
  apply (builds_release_their_volume_once g_nifti 0 [(0, 1); (0, 0)]).
  vm_compute. reflexivity.
Defined.

(** C2 on the medical image with its catalog of two tables: selecting
    table 7 makes [getField] fail; the device still has its seven
    objects and volume 4 is still bound. *)
Lemma reader_failure_aborts_the_rebuild_witness :
  let r := updateLacLutCallback (RF := DemoFailure.failure) 0 7 s_ct in
  nextHandle (device s_ct) = 8 ∧ boundVolumes s_ct = Some [4]
  ∧ r.1 = Thrown
  ∧ device r.2 = device s_ct
  ∧ world (m_state r.2) = world (m_state s_ct)
  ∧ field (m_state r.2) = field (m_state s_ct)
  ∧ sdata (m_state r.2) = sdata (m_state s_ct)
  ∧ globals r.2 = globals s_ct
  ∧ ∃ v, boundVolumes s_ct = Some [v] ∧ boundVolumes r.2 = Some [v]
      ∧ kindOf (device r.2) v = Some (Volume "transferFunction1D").
Proof.
  split; [reflexivity|]. split; [vm_compute; reflexivity|].
  apply (reader_failure_aborts_the_rebuild (RF := DemoFailure.failure) 0 7 s_ct).
  - exact (reach_setup g_nifti 0).
  - reflexivity.
Defined.

(** C3 at the raw grid of 3 bytes per cell, where [setupWindows] runs
    the field construction in the state [s_int24]: the handle 99 the
    local happens to hold becomes the ["data"] of the field and is
    released. *)
Lemma unsupported_width_witness :
  let s' := exec (setupField 99 4 4 4) s_int24 in
  exec (setupWindows 99) (start (g_raw 3)) = exec setupVolume s'
  ∧ supported (sdata (m_state s_int24)) = false
  ∧ calls (device s') =
      calls (device s_int24) ++
      [ NewObject 2 (SpatialField "structuredRegular");
        SetParameter 2 "data" (VObject ANARI_ARRAY3D 99);
        Release 99;
        SetParameter 2 "filter" (VString "linear");
        CommitParameters 2 ]
  ∧ pendingParam (device s') 2 "data" = Some (VObject ANARI_ARRAY3D 99)
  ∧ committedParam (device s') 2 "data" = Some (VObject ANARI_ARRAY3D 99).
Proof.
  split; [vm_compute; reflexivity|]. split; [reflexivity|].
  apply (unsupported_width_sets_data_to_the_uninitialised_handle 99 4 4 4 s_int24).
  reflexivity.
Defined.

(** C4 on the raw grid of one byte per cell. *)
Lemma field_is_built_over_the_voxel_buffer_witness :
  field (m_state (s_grid 1)) = 2
  ∧ sdata (m_state (s_grid 1)) = raw_field (Some (4%Z, 4%Z, 4%Z, 1))
  ∧ ∃ a mem ty,
      ((1 = 1 ∧ mem = MemUI8 (replicate 64 128) ∧ ty = ANARI_UFIXED8)
       ∨ (1 = 2 ∧ mem = MemUI16 [] ∧ ty = ANARI_UFIXED16)
       ∨ (1 = 4 ∧ mem = MemF32 [] ∧ ty = ANARI_FLOAT32))
      ∧ objects (device (s_grid 1)) !! a =
          Some (mkObject (Array3D mem ty 4 4 4) 0 ∅ ∅)
      ∧ numItems <$> kindOf (device (s_grid 1)) a = Some 64
      ∧ objects (device (s_grid 1)) !! 2 =
          Some (mkObject (SpatialField "structuredRegular") 1
                  (fieldParams a) (fieldParams a))
      ∧ fieldParams a !! "data" = Some (VObject ANARI_ARRAY3D a)
      ∧ fieldParams a !! "filter" = Some (VString "linear")
      ∧ Release a ∈ calls (device (s_grid 1)).
Proof.
  split; [reflexivity|]. split; [reflexivity|].
  apply (field_is_built_over_the_voxel_buffer (s_grid 1)).
  - exact demo_rawServesDeclaredGrid.
  - exact (reach_setup (g_raw 1) 0).
  - vm_compute. discriminate.
  - reflexivity.
  - vm_compute. split; reflexivity.
  - vm_compute. split; reflexivity.
  - vm_compute. split; reflexivity.
Defined.

(** C5 after start-up and one change of the table: volume 4 was bound,
    the change creates volume 10 and binds it in place of 4. *)
Lemma world_binds_the_new_volume_witness :
  let s' := exec (updateLacLut 0 1) s_ct in
  createdVolumes (calls (device s_ct)) = [4]
  ∧ createdVolumes (calls (device s')) = [4; 10]
  ∧ boundVolumes s_ct = Some [4]
  ∧ boundVolumes s' = Some [10]
  ∧ ∃ v0 v log1,
      boundVolumes s_ct = Some [v0]
      ∧ v0 < nextHandle (device s_ct) < v
      ∧ objects (device s_ct) !! v = None
      ∧ calls (device s') =
          calls (device s_ct) ++ log1 ++
          volumeCalls v (world (m_state s')) (field (m_state s'))
            (g_voxelRange (globals s'))
      ∧ createdVolumes (calls (device s')) =
          createdVolumes (calls (device s_ct)) ++ [v]
      ∧ boundVolumes s' = Some [v]
      ∧ pendingParam (device s') (world (m_state s')) "volume" =
        committedParam (device s') (world (m_state s')) "volume"
      ∧ kindOf (device s') v = Some (Volume "transferFunction1D").
Proof.
  split; [reflexivity|]. split; [reflexivity|].
  split; [vm_compute; reflexivity|]. split; [vm_compute; reflexivity|].
  apply (proj2 world_binds_the_new_volume s_ct 0 1).
  exact (reach_setup g_nifti 0).
Defined.

(** C6 on the medical image under table 0, whose voxels span -1 to 3.5. *)
Lemma value_range_is_the_data_range_witness :
  dataRange (sdata (m_state s_ct)) = (-1, 3.5)%float
  ∧ ∃ v, boundVolumes s_ct = Some [v]
      ∧ pendingParam (device s_ct) v "valueRange" = Some (VBox1 (-1)%float 3.5%float)
      ∧ committedParam (device s_ct) v "valueRange" = Some (VBox1 (-1)%float 3.5%float).
Proof.
  split; [reflexivity|].
  apply (value_range_is_the_data_range s_ct).
  - apply reach_setup.
  - vm_compute. discriminate.
Defined.

(** C7 and C8 after start-up and one change of the table. *)
Lemma value_and_field_name_the_same_field_witness :
  let s := exec (updateLacLut 0 1) s_ct in
  createdVolumes (calls (device s)) = [4; 10]
  ∧ ∃ v, boundVolumes s = Some [v]
      ∧ v ∈ createdVolumes (calls (device s))
      ∧ committedParam (device s) v "value" =
          Some (VObject ANARI_SPATIAL_FIELD (field (m_state s)))
      ∧ committedParam (device s) v "field" =
          Some (VObject ANARI_SPATIAL_FIELD (field (m_state s))).
Proof.
  split; [reflexivity|].
  apply (value_and_field_name_the_same_field (exec (updateLacLut 0 1) s_ct)).
  apply reach_update. apply reach_setup.
Defined.

Lemma ramp_is_blue_green_red_witness :
  let s := exec (updateLacLut 0 1) s_ct in
  ∃ c o,
    committedParam (device s) 10 "color" = Some (VObject ANARI_ARRAY1D c)
    ∧ kindOf (device s) c =
        Some (Array1D (MemFloat3 [Float3 0 0 1; Float3 0 1 0; Float3 1 0 0]%float)
                ANARI_FLOAT32_VEC3 3)
    ∧ committedParam (device s) 10 "opacity" = Some (VObject ANARI_ARRAY1D o)
    ∧ kindOf (device s) o =
        Some (Array1D (MemF32 [0; 1]%float) ANARI_FLOAT32 2).
Proof.
  apply (ramp_is_blue_green_red (exec (updateLacLut 0 1) s_ct)).
  - apply reach_update. apply reach_setup.
  - vm_compute. apply list_elem_of_In. cbn. tauto.
Defined.

(** C9 in a session on the raw grid: the change to table 1 leaves the
    field the unopened medical-image reader serves. *)
Lemma lut_change_reads_the_medical_image_witness :
  rawOpens (g_raw 1) = true
  ∧ sdata (m_state (s_grid 1)) = raw_field (Some (4%Z, 4%Z, 4%Z, 1))
  ∧ sdata (m_state (exec (updateLacLut 0 1) (s_grid 1))) = emptyField.
Proof.
  split; [reflexivity|]. split; [reflexivity|].
  apply (proj2 (lut_change_reads_the_medical_image 0 1 (s_grid 1)) (g_raw 1) 0);
    reflexivity.
Defined.

(** C10 on a file neither reader opens. *)
Lemma setup_without_source_binds_a_volume_witness :
  let s := exec (setupWindows 0) (start g_none) in
  field (m_state s) = nullptr
  ∧ boundVolumes s = Some [2]
  ∧ kindOf (device s) 2 = Some (Volume "transferFunction1D")
  ∧ committedParam (device s) 2 "value" = Some (VObject ANARI_SPATIAL_FIELD nullptr)
  ∧ committedParam (device s) 2 "field" = Some (VObject ANARI_SPATIAL_FIELD nullptr)
  ∧ committedParam (device s) 2 "valueRange" = Some (VBox1 0%float 0%float)
  ∧ ∀ g' scalar0', ∃ v,
      boundVolumes (exec (setupWindows scalar0') (start g')) = Some [v].
Proof.
  apply (setup_without_source_binds_a_volume g_none 0); reflexivity.
Defined.

End Runs.

(** * More of the code *)

Section Strings.
Local Open Scope string_scope.

Lemma append_nil (t : string) : EmptyString +:+ t = t.
Proof. reflexivity. Qed.

Lemma append_cons a (s t : string) : String a s +:+ t = String a (s +:+ t).
Proof. reflexivity. Qed.

Lemma append_empty_r (s : string) : s +:+ EmptyString = s.
Proof.
  induction s as [|a s IH]; [reflexivity|]. rewrite append_cons. congruence.
Qed.

Lemma append_assoc' (a b c : string) : (a +:+ b) +:+ c = a +:+ (b +:+ c).
Proof.
  induction a as [|x a IH]; [reflexivity|]. rewrite !append_cons. congruence.
Qed.

Lemma length_append' (a b : string) :
  String.length (a +:+ b) = (String.length a + String.length b)%nat.
Proof.
  induction a as [|x a IH]; [reflexivity|]. rewrite append_cons. cbn. congruence.
Qed.

Lemma string_drop_append (a b : string) : string_drop (String.length a) (a +:+ b) = b.
Proof.
  induction a as [|x a IH]; [by destruct b|]. rewrite append_cons. exact IH.
Qed.

Lemma has_char_append c (a b : string) :
  has_char c (a +:+ b) = has_char c a || has_char c b.
Proof.
  induction a as [|x a IH]; [reflexivity|]. rewrite append_cons. cbn.
  rewrite IH. by rewrite orb_assoc.
Qed.

(** What [rfind] finds: the place after which [c] does not occur. *)
Lemma rfind_from_None c s i :
  rfind_from c s i = None ↔ has_char c s = false.
Proof.
  revert i. induction s as [|a s IH]; intros i; cbn; [done|].
  destruct (rfind_from c s (S i)) eqn:E.
  - split; [discriminate|]. intros H. apply orb_false_iff in H as [_ H].
    apply (IH (S i)) in H. congruence.
  - apply IH in E. rewrite E, orb_false_r.
    destruct (Ascii.eqb a c); split; (done || discriminate).
Qed.

Lemma rfind_from_Some c s i j :
  rfind_from c s i = Some j →
  ∃ base e, s = base +:+ String c e ∧ has_char c e = false
            ∧ j = (i + String.length base)%nat.
Proof.
  revert i j. induction s as [|a s IH]; intros i j H; cbn in H; [discriminate|].
  destruct (rfind_from c s (S i)) as [k|] eqn:E.
  - injection H as ->. destruct (IH _ _ E) as (base & e & -> & He & ->).
    exists (String a base), e. rewrite append_cons. cbn [String.length].
    repeat split; [exact He | lia].
  - destruct (Ascii.eqb a c) eqn:Ea; [|discriminate].
    injection H as <-. apply Ascii.eqb_eq in Ea as ->.
    exists EmptyString, s. rewrite append_nil. cbn [String.length].
    split; [reflexivity|]. split; [|lia].
    apply (rfind_from_None c s (S i)). exact E.
Qed.

Lemma rfind_from_append c base e i :
  has_char c e = false →
  rfind_from c (base +:+ String c e) i = Some (i + String.length base)%nat.
Proof.
  intros He. revert i. induction base as [|a base IH]; intros i.
  - rewrite append_nil. cbn.
    apply (rfind_from_None c e (S i)) in He. rewrite He, Ascii.eqb_refl.
    f_equal. lia.
  - rewrite append_cons. cbn. rewrite IH. f_equal. lia.
Qed.

Lemma int_of_size_t_small (n : nat) :
  (Z.of_nat n < 2 ^ 31)%Z → size_t_of_int (int_of_size_t (Z.of_nat n)) = Z.of_nat n.
Proof.
  intros Hn. unfold int_of_size_t, size_t_of_int.
  rewrite (Z.mod_small (Z.of_nat n)) by lia.
  destruct (Z.ltb_spec (Z.of_nat n) (2 ^ 31)); [|lia].
  apply Z.mod_small. lia.
Qed.

(** X1.  A file name without a dot has the empty extension, whatever its
    length; for a name shorter than 2^31 characters [getExt] does not
    throw, and the extension of [base.e], where [e] has no dot, is
    [.e]: the part from the last dot on. *)
Theorem getExt_is_the_part_from_the_last_dot (fileName : string) :
  (has_char "." fileName = false → getExt fileName = Some EmptyString)
  ∧ ((Z.of_nat (String.length fileName) < 2 ^ 31)%Z →
     has_char "." fileName = true →
     ∃ base e, fileName = base +:+ String "." e
       ∧ has_char "." e = false
       ∧ getExt fileName = Some (String "." e)).
Proof.
  split.
  - intros H. unfold getExt, rfind.
    apply (rfind_from_None "." fileName 0) in H. rewrite H. reflexivity.
  - intros Hlen Hdot. unfold getExt, rfind.
    destruct (rfind_from "." fileName 0) as [j|] eqn:E.
    + destruct (rfind_from_Some _ _ _ _ E) as (base & e & -> & He & ->).
      exists base, e. split; [reflexivity|]. split; [exact He|].
      rewrite length_append' in Hlen. cbn in Hlen.
      rewrite int_of_size_t_small by (cbn; lia).
      destruct (Z.eqb_spec (Z.of_nat (0 + String.length base)) npos) as [Hn|_].
      { unfold npos in Hn. cbn in Hn. lia. }
      unfold substr. rewrite length_append'. cbn [String.length].
      destruct (Z.leb_spec (Z.of_nat (0 + String.length base))
                  (Z.of_nat (String.length base + S (String.length e)))); [|lia].
      rewrite Nat2Z.id. cbn [Nat.add]. rewrite string_drop_append. reflexivity.
    + apply rfind_from_None in E. congruence.
Qed.

Lemma getExt_witness :
  getExt "grid_4x4x4_uint8.raw" = Some ".raw"
  ∧ ∃ base e, "scan.nii.gz" = base +:+ String "." e
      ∧ has_char "." e = false
      ∧ getExt "scan.nii.gz" = Some (String "." e).
Proof.
  split; [reflexivity|].
  apply (proj2 (getExt_is_the_part_from_the_last_dot "scan.nii.gz"));
    [vm_compute; reflexivity | reflexivity].
Defined.

(** *** [string_split] *)

Lemma getline_chars_append d t r :
  has_char d t = false → getline_chars (t +:+ String d r) d = (t, r).
Proof.
  induction t as [|a t IH]; intros H.
  - rewrite append_nil. cbn. by rewrite Ascii.eqb_refl.
  - cbn in H. apply orb_false_iff in H as [Ha Ht].
    rewrite append_cons. cbn. rewrite Ha, (IH Ht). reflexivity.
Qed.

Lemma getline_chars_whole d s :
  has_char d s = false → getline_chars s d = (s, EmptyString).
Proof.
  induction s as [|a s IH]; intros H; [reflexivity|].
  cbn in H. apply orb_false_iff in H as [Ha Hs].
  cbn. rewrite Ha, (IH Hs). reflexivity.
Qed.

(** A string either has no [d], or splits at its first [d]. *)
Lemma first_delim d s :
  has_char d s = false
  ∨ ∃ t r, s = t +:+ String d r ∧ has_char d t = false.
Proof.
  induction s as [|a s IH]; [by left|].
  destruct (Ascii.eqb a d) eqn:Ea.
  - right. apply Ascii.eqb_eq in Ea as ->. exists EmptyString, s. done.
  - destruct IH as [H | (t & r & -> & Ht)].
    + left. cbn. by rewrite Ea, H.
    + right. exists (String a t), r. rewrite append_cons. cbn. by rewrite Ea, Ht.
Qed.

Lemma ends_with_has_char d s : ends_with d s = true → has_char d s = true.
Proof.
  induction s as [|a s IH]; [discriminate|]. cbn.
  destruct s as [|b s]; [intros ->; reflexivity|].
  intros H. rewrite (IH H). apply orb_true_r.
Qed.

Lemma ends_with_append d t c r :
  ends_with d (t +:+ String c r) = ends_with d (String c r).
Proof.
  induction t as [|a t IH]; [reflexivity|]. rewrite append_cons.
  change (ends_with d (String a (t +:+ String c r)))
    with (match t +:+ String c r with
          | EmptyString => Ascii.eqb a d
          | String _ _ => ends_with d (t +:+ String c r)
          end).
  destruct (t +:+ String c r) eqn:E; [|exact IH].
  destruct t; discriminate E.
Qed.

Lemma split_loop_empty fuel d : split_loop fuel EmptyString d = [].
Proof. destruct fuel; reflexivity. Qed.

Lemma split_loop_whole fuel d s :
  s ≠ EmptyString → has_char d s = false → split_loop (S fuel) s d = [s].
Proof.
  intros Hs Hd. destruct s as [|a s]; [done|].
  cbn [split_loop getline]. rewrite (getline_chars_whole d _ Hd).
  by rewrite split_loop_empty.
Qed.

Lemma split_loop_first fuel d t r :
  has_char d t = false →
  split_loop (S fuel) (t +:+ String d r) d = t :: split_loop fuel r d.
Proof.
  intros Ht. cbn [split_loop].
  assert (getline (t +:+ String d r) d = Some (t, r)) as ->; [|reflexivity].
  unfold getline. destruct (t +:+ String d r) eqn:E.
  - destruct t; discriminate E.
  - rewrite <- E, (getline_chars_append d t r Ht). reflexivity.
Qed.

(** As many rounds as the string has characters are enough: with more
    rounds the loop gives the same tokens. *)
Lemma split_loop_fuel d f1 : ∀ f2 s,
  (String.length s ≤ f1)%nat → (String.length s ≤ f2)%nat →
  split_loop f1 s d = split_loop f2 s d.
Proof.
  induction f1 as [|f1 IH]; intros f2 s H1 H2.
  - destruct s; [|cbn in H1; lia]. by rewrite !split_loop_empty.
  - destruct (decide (s = EmptyString)) as [->|Hs].
    { by rewrite !split_loop_empty. }
    destruct f2 as [|f2]; [destruct s; [done | cbn in H2; lia]|].
    destruct (first_delim d s) as [Hd | (t & r & -> & Ht)].
    + by rewrite !split_loop_whole.
    + rewrite !split_loop_first by exact Ht.
      rewrite length_append' in H1, H2. cbn in H1, H2.
      f_equal. apply IH; lia.
Qed.

Lemma split_loop_join d fuel : ∀ s,
  (String.length s ≤ fuel)%nat →
  join d (split_loop fuel s d)
    +:+ (if ends_with d s then String d EmptyString else EmptyString) = s.
Proof.
  induction fuel as [|fuel IH]; intros s Hlen.
  - destruct s; [reflexivity | cbn in Hlen; lia].
  - destruct (decide (s = EmptyString)) as [->|Hs]; [reflexivity|].
    destruct (first_delim d s) as [Hd | (t & r & -> & Ht)].
    + rewrite split_loop_whole by assumption. cbn [join].
      destruct (ends_with d s) eqn:E.
      * apply ends_with_has_char in E. congruence.
      * apply append_empty_r.
    + rewrite split_loop_first by exact Ht.
      rewrite length_append' in Hlen. cbn in Hlen.
      rewrite ends_with_append.
      destruct r as [|c r].
      * rewrite split_loop_empty. cbn. by rewrite Ascii.eqb_refl.
      * specialize (IH (String c r) ltac:(cbn in *; lia)).
        destruct fuel as [|fuel]; [cbn in Hlen; lia|].
        change (ends_with d (String d (String c r)))
          with (ends_with d (String c r)).
        destruct (split_loop (S fuel) (String c r) d) as [|t' ts] eqn:E.
        { cbn [split_loop getline] in E. destruct (getline_chars _ _); discriminate E. }
        change (join d (t :: t' :: ts)) with (t +:+ String d (join d (t' :: ts))).
        rewrite append_assoc', append_cons, IH. reflexivity.
Qed.

Lemma split_loop_tokens d fuel : ∀ s t,
  (String.length s ≤ fuel)%nat →
  t ∈ split_loop fuel s d → has_char d t = false.
Proof.
  induction fuel as [|fuel IH]; intros s t Hlen Hin.
  - by apply elem_of_nil in Hin.
  - destruct (decide (s = EmptyString)) as [->|Hs].
    { rewrite split_loop_empty in Hin. by apply elem_of_nil in Hin. }
    destruct (first_delim d s) as [Hd | (t0 & r & -> & Ht)].
    + rewrite split_loop_whole in Hin by assumption.
      apply list_elem_of_singleton in Hin as ->. exact Hd.
    + rewrite split_loop_first in Hin by exact Ht.
      rewrite length_append' in Hlen. cbn in Hlen.
      apply elem_of_cons in Hin as [-> | Hin]; [exact Ht|].
      apply (IH r t); [lia | exact Hin].
Qed.

(** X2.  [string_split] loses nothing but one delimiter at the end: the
    tokens, put together with the delimiter between them, give the
    string back, up to the delimiter it ends with if it does; and no
    token holds a delimiter. *)
Theorem string_split_join (s : string) (delim : ascii) :
  join delim (string_split s delim)
    +:+ (if ends_with delim s then String delim EmptyString else EmptyString) = s
  ∧ ∀ t, t ∈ string_split s delim → has_char delim t = false.
Proof.
  split.
  - apply split_loop_join. reflexivity.
  - intros t. apply split_loop_tokens. reflexivity.
Qed.

(** X3.  The edges of [string_split]: a delimiter at the very start
    gives an empty first token; one delimiter after the last token
    gives no token; and the loop has ended by itself, more rounds would
    read nothing more. *)
Theorem string_split_edges (s : string) (delim : ascii) :
  string_split (String delim s) delim = EmptyString :: string_split s delim
  ∧ (s ≠ EmptyString → ends_with delim s = false →
     string_split (s +:+ String delim EmptyString) delim = string_split s delim)
  ∧ ∀ more, split_loop (String.length s + more) s delim = string_split s delim.
Proof.
  split; [|split].
  - unfold string_split. cbn [String.length].
    apply (split_loop_first (String.length s) delim EmptyString s). reflexivity.
  - assert (∀ fuel s, (String.length s ≤ fuel)%nat → s ≠ EmptyString →
              ends_with delim s = false →
              split_loop (S fuel) (s +:+ String delim EmptyString) delim =
              split_loop fuel s delim) as H.
    { clear s. induction fuel as [|fuel IH]; intros s Hlen Hs He.
      - destruct s; [done | cbn in Hlen; lia].
      - destruct (first_delim delim s) as [Hd | (t & r & -> & Ht)].
        + rewrite split_loop_first by exact Hd.
          rewrite split_loop_empty. by rewrite split_loop_whole.
        + rewrite append_assoc', append_cons.
          rewrite (split_loop_first (S fuel) delim t _ Ht).
          rewrite (split_loop_first fuel delim t r Ht).
          rewrite ends_with_append in He.
          rewrite length_append' in Hlen. cbn in Hlen.
          f_equal. apply IH; [lia | |].
          * intros ->. cbn in He. by rewrite Ascii.eqb_refl in He.
          * destruct r; [cbn in He; by rewrite Ascii.eqb_refl in He | exact He]. }
    intros Hs He. unfold string_split. rewrite length_append'. cbn [String.length].
    replace (String.length s + 1)%nat with (S (String.length s)) by lia.
    apply H; [lia | exact Hs | exact He].
  - intros more. apply split_loop_fuel; lia.
Qed.

Lemma string_split_edges_witness :
  string_split "grid_4x4x4_uint8.raw" "_" = ["grid"; "4x4x4"; "uint8.raw"]
  ∧ string_split ("grid_4x4x4" +:+ String "_" EmptyString) "_" =
    string_split "grid_4x4x4" "_".
Proof.
  split; [reflexivity|].
  apply (proj1 (proj2 (string_split_edges "grid_4x4x4" "_")));
    [discriminate | reflexivity].
Defined.

End Strings.

Section CommandLineFacts.
Context `{LC : Libc}.
Local Open Scope string_scope.

(** One round of the loop of [parseCommandLine], by cases. *)
Ltac parse_cases H :=
  cbn [parseArgs] in H; cbv zeta in H;
  repeat match type of H with
  | context [if ?c then _ else _] => destruct c eqn:?
  | context [match ?l with [] => _ | _ :: _ => _ end] => destruct l
  end.

Lemma parseArgs_keeps (n : nat) : ∀ args st st',
  (length args ≤ n)%nat →
  parseArgs args st = Returns st' →
  g_voxelRange st'.1 = g_voxelRange st.1
  ∧ (widthOfCommandLine st.1 → widthOfCommandLine st'.1).
Proof.
  induction n as [|n IH]; intros args st st' Hlen H.
  - destruct args; [|cbn in Hlen; lia]. cbn in H. injection H as <-. tauto.
  - destruct args as [|arg rest]; [cbn in H; injection H as <-; tauto|].
    cbn [length] in Hlen.
    parse_cases H; try discriminate H;
      try (injection H as <-; cbn; tauto);
      (apply IH in H; [|cbn [length] in Hlen |- *; lia]);
      cbn in H; unfold widthOfCommandLine in *; cbn in *; tauto.
Qed.

(** X4.  When [main] starts the application, the command line has
    named a file, [g_bytesPerCell] is 0 (no type given) or one of 1, 2
    and 4, and [g_voxelRange] still is the zero-initialised (0, 0). *)
Theorem main_starts_with_a_file_and_a_known_width
    (argv : list string) (st : Globals * Options) :
  main argv = Returns st →
  g_filename st.1 ≠ EmptyString
  ∧ (g_bytesPerCell st.1 = 0%N ∨ g_bytesPerCell st.1 = 1%N
     ∨ g_bytesPerCell st.1 = 2%N ∨ g_bytesPerCell st.1 = 4%N)
  ∧ g_voxelRange st.1 = (0%float, 0%float).
Proof.
  unfold main, parseCommandLine. intros H.
  destruct (parseArgs (tail argv) (initialGlobals, initialOptions))
    as [st0| |] eqn:E; [|discriminate..].
  destruct (String.eqb (g_filename st0.1) EmptyString) eqn:Ef; [discriminate|].
  injection H as <-.
  destruct (parseArgs_keeps _ _ _ _ (le_n _) E) as (Hr & Hw).
  split; [|split].
  - intros Hempty. rewrite Hempty in Ef. discriminate Ef.
  - apply Hw. left. reflexivity.
  - rewrite Hr. reflexivity.
Qed.

(** *** Words that are no options *)

Lemma plain_round arg rest st :
  isOptionWord arg = false →
  parseArgs (arg :: rest) st =
  parseArgs rest (with_filename arg st.1,
                  if isVerboseWord arg then with_verbose true st.2 else st.2).
Proof.
  intros H. unfold isOptionWord in H. apply bool_decide_eq_false in H.
  rewrite !not_elem_of_cons in H. destruct_and!.
  cbn [parseArgs]. cbv zeta. unfold isVerboseWord.
  repeat match goal with
  | Hne : arg ≠ ?w |- _ =>
      rewrite (proj2 (String.eqb_neq arg w) Hne); clear Hne
  end.
  cbn [orb]. destruct (String.eqb arg "-v" || String.eqb arg "--verbose");
    reflexivity.
Qed.

Lemma parseArgs_plain_app args : ∀ rest st,
  (∀ a, a ∈ args → isOptionWord a = false) →
  parseArgs (args ++ rest) st = parseArgs rest (plainState args st).
Proof.
  induction args as [|arg args IH]; intros rest st H; [reflexivity|].
  cbn [app]. rewrite plain_round by (apply H; left).
  rewrite IH by (intros a Ha; apply H; right; exact Ha). reflexivity.
Qed.

Lemma plainState_fields args : ∀ st,
  args ≠ [] →
  g_filename (plainState args st).1 = List.last args EmptyString
  ∧ g_verbose (plainState args st).2 = g_verbose st.2 || existsb isVerboseWord args
  ∧ g_dimX (plainState args st).1 = g_dimX st.1
  ∧ g_dimY (plainState args st).1 = g_dimY st.1
  ∧ g_dimZ (plainState args st).1 = g_dimZ st.1
  ∧ g_bytesPerCell (plainState args st).1 = g_bytesPerCell st.1
  ∧ g_traceDir (plainState args st).2 = g_traceDir st.2.
Proof.
  induction args as [|arg args IH]; intros st Hne; [done|].
  destruct args as [|arg' args].
  - cbn. destruct (isVerboseWord arg); cbn; rewrite ?orb_true_r, ?orb_false_r;
      repeat split.
  - specialize (IH (with_filename arg st.1,
                    if isVerboseWord arg then with_verbose true st.2 else st.2)
                  ltac:(discriminate)).
    change (plainState (arg :: arg' :: args) st)
      with (plainState (arg' :: args)
              (with_filename arg st.1,
               if isVerboseWord arg then with_verbose true st.2 else st.2)).
    destruct IH as (-> & -> & -> & -> & -> & -> & ->).
    change (List.last (arg :: arg' :: args) EmptyString)
      with (List.last (arg' :: args) EmptyString).
    change (existsb isVerboseWord (arg :: arg' :: args))
      with (isVerboseWord arg || existsb isVerboseWord (arg' :: args)).
    destruct (isVerboseWord arg); cbn [fst snd g_verbose with_verbose
      with_filename g_dimX g_dimY g_dimZ g_bytesPerCell g_traceDir];
      rewrite ?orb_true_r, ?orb_true_l, ?orb_false_l; repeat split.
Qed.

(** X5.  Words that are no options are file names, and the last one
    wins; [-v] and [--verbose] set the flag and are taken as a file name
    too.  Extents, type and trace directory are left alone. *)
Theorem plain_words_are_file_names (args : list string) (st : Globals * Options) :
  args ≠ [] →
  (∀ a, a ∈ args → isOptionWord a = false) →
  ∃ st', parseArgs args st = Returns st'
    ∧ g_filename st'.1 = List.last args EmptyString
    ∧ g_verbose st'.2 = g_verbose st.2 || existsb isVerboseWord args
    ∧ g_dimX st'.1 = g_dimX st.1 ∧ g_dimY st'.1 = g_dimY st.1
    ∧ g_dimZ st'.1 = g_dimZ st.1
    ∧ g_bytesPerCell st'.1 = g_bytesPerCell st.1
    ∧ g_traceDir st'.2 = g_traceDir st.2.
Proof.
  intros Hne Hplain. exists (plainState args st). split.
  - rewrite <- (app_nil_r args) at 1. rewrite parseArgs_plain_app by exact Hplain.
    reflexivity.
  - apply plainState_fields. exact Hne.
Qed.

(** X6.  After words that are no options: an option that reads its
    value into a [std::string] or gives it to [atoi] reads the null
    pointer when it is the last argument, and so does [--dims] with
    fewer than three values; [--trace] as the last argument only leaves
    [g_traceDir] null; [--type] with a name other than uint8, uint16,
    float32 exits with status 0. *)
Theorem options_at_the_end (args : list string) (st : Globals * Options) :
  (∀ a, a ∈ args → isOptionWord a = false) →
  (∀ opt, takesValue opt = true → parseArgs (args ++ [opt]) st = Undefined)
  ∧ (∀ x y, parseArgs (args ++ ["--dims"; x]) st = Undefined
            ∧ parseArgs (args ++ ["--dims"; x; y]) st = Undefined)
  ∧ parseArgs (args ++ ["--trace"]) st =
      Returns ((plainState args st).1, with_traceDir None (plainState args st).2)
  ∧ (∀ v rest, v ≠ "uint8" → v ≠ "uint16" → v ≠ "float32" →
       parseArgs (args ++ "--type" :: v :: rest) st = Exits 0).
Proof.
  intros Hplain. split; [|split; [|split]].
  - intros opt Hopt. rewrite parseArgs_plain_app by exact Hplain.
    unfold takesValue in Hopt. apply bool_decide_eq_true in Hopt.
    repeat (apply elem_of_cons in Hopt as [-> | Hopt]; [reflexivity|]).
    by apply elem_of_nil in Hopt.
  - intros x y. rewrite !parseArgs_plain_app by exact Hplain. split; reflexivity.
  - rewrite parseArgs_plain_app by exact Hplain. reflexivity.
  - intros v rest H8 H16 H32. rewrite parseArgs_plain_app by exact Hplain.
    cbn [parseArgs]. cbv zeta.
    change (String.eqb "--type" "-v" || String.eqb "--type" "--verbose") with false.
    cbn.
    rewrite (proj2 (String.eqb_neq v "uint8") H8),
      (proj2 (String.eqb_neq v "uint16") H16),
      (proj2 (String.eqb_neq v "float32") H32).
    reflexivity.
Qed.

End CommandLineFacts.

Section CommandLineRuns.
Local Open Scope string_scope.

Lemma main_witness :
  let argv := ["viewer"; "--dims"; "4"; "4"; "4"; "--type"; "uint8"; "grid.raw"] in
  ∃ st, main (LC := DemoLibc.libc) argv = Returns st
    ∧ st.1 = mkGlobals "grid.raw" 4 4 4 1 (0%float, 0%float) EmptyString 0
    ∧ g_filename st.1 ≠ EmptyString
    ∧ (g_bytesPerCell st.1 = 0%N ∨ g_bytesPerCell st.1 = 1%N
       ∨ g_bytesPerCell st.1 = 2%N ∨ g_bytesPerCell st.1 = 4%N)
    ∧ g_voxelRange st.1 = (0%float, 0%float).
Proof.
  eexists. split; [vm_compute; reflexivity|]. split; [reflexivity|].
  apply (main_starts_with_a_file_and_a_known_width (LC := DemoLibc.libc)
           ["viewer"; "--dims"; "4"; "4"; "4"; "--type"; "uint8"; "grid.raw"]).
  vm_compute. reflexivity.
Defined.

Lemma plain_words_witness :
  ∃ st', parseArgs (LC := DemoLibc.libc) ["scan.nii"; "-v"]
           (initialGlobals, initialOptions) = Returns st'
    ∧ g_filename st'.1 = "-v"
    ∧ g_verbose st'.2 = true
    ∧ g_dimX st'.1 = 0%Z ∧ g_dimY st'.1 = 0%Z ∧ g_dimZ st'.1 = 0%Z
    ∧ g_bytesPerCell st'.1 = 0%N
    ∧ g_traceDir st'.2 = None.
Proof.
  apply (plain_words_are_file_names (LC := DemoLibc.libc) ["scan.nii"; "-v"]
           (initialGlobals, initialOptions)).
  - discriminate.
  - intros a Ha. apply list_elem_of_In in Ha. cbn in Ha.
    destruct Ha as [<- | [<- | []]]; reflexivity.
Defined.

Lemma options_at_the_end_witness :
  parseArgs (LC := DemoLibc.libc) ["grid.raw"; "--lut"]
    (initialGlobals, initialOptions) = Undefined
  ∧ parseArgs (LC := DemoLibc.libc) ["grid.raw"; "--type"; "int24"]
      (initialGlobals, initialOptions) = Exits 0.
Proof.
  assert (∀ a, a ∈ ["grid.raw"] → isOptionWord a = false) as Hplain.
  { intros a Ha. apply list_elem_of_singleton in Ha as ->. reflexivity. }
  destruct (options_at_the_end (LC := DemoLibc.libc) ["grid.raw"]
              (initialGlobals, initialOptions) Hplain) as (H1 & _ & _ & H4).
  split.
  - apply (H1 "--lut"). reflexivity.
  - apply (H4 "int24" []); discriminate.
Defined.

End CommandLineRuns.

Section GuessFacts.
Context `{VS : VoxelSources} `{LC : Libc}.
Local Open Scope string_scope.

Lemma guessLoop_keeps strings : ∀ g,
  g_filename (guessLoop strings g) = g_filename g
  ∧ g_voxelRange (guessLoop strings g) = g_voxelRange g
  ∧ g_laclutfile (guessLoop strings g) = g_laclutfile g
  ∧ g_laclutid (guessLoop strings g) = g_laclutid g.
Proof.
  induction strings as [|str rest IH]; intros g; [done|].
  cbn [guessLoop]. cbv zeta.
  destruct (sscanf_dims str) as [[[x y] z]|], (sscanf_int str), (sscanf_uint str);
    match goal with |- context [if ?c then _ else _] => destruct c end;
    try match goal with |- context [guessLoop rest ?g0] =>
      destruct (IH g0) as (-> & -> & -> & ->) end;
    cbn; done.
Qed.

Lemma guessLoop_no_width strings : ∀ g,
  (∀ tok, tok ∈ strings → sscanf_int tok = None ∧ sscanf_uint tok = None) →
  g_bytesPerCell (guessLoop strings g) = g_bytesPerCell g.
Proof.
  induction strings as [|str rest IH]; intros g H; [done|].
  cbn [guessLoop]. cbv zeta.
  destruct (H str ltac:(left)) as [-> ->].
  assert (∀ tok, tok ∈ rest → sscanf_int tok = None ∧ sscanf_uint tok = None)
    as Hrest by (intros tok Ht; apply H; right; exact Ht).
  destruct (sscanf_dims str) as [[[x y] z]|];
    match goal with |- context [if ?c then _ else _] => destruct c end;
    rewrite ?IH by exact Hrest; reflexivity.
Qed.

Lemma guessLoop_no_dims strings : ∀ g,
  (∀ tok, tok ∈ strings → sscanf_dims tok = None) →
  g_dimX (guessLoop strings g) = g_dimX g
  ∧ g_dimY (guessLoop strings g) = g_dimY g
  ∧ g_dimZ (guessLoop strings g) = g_dimZ g.
Proof.
  induction strings as [|str rest IH]; intros g H; [done|].
  cbn [guessLoop]. cbv zeta.
  rewrite (H str ltac:(left)).
  assert (∀ tok, tok ∈ rest → sscanf_dims tok = None)
    as Hrest by (intros tok Ht; apply H; right; exact Ht).
  destruct (sscanf_int str), (sscanf_uint str);
    match goal with |- context [if ?c then _ else _] => destruct c end;
    rewrite ?(proj1 (IH _ Hrest)), ?(proj1 (proj2 (IH _ Hrest))),
      ?(proj2 (proj2 (IH _ Hrest))); cbn; done.
Qed.

(** X7.  The guess from the file name keeps the file name, the lookup
    table options and [g_voxelRange]; it changes nothing at all unless
    the extension is [.raw] and none of the extents and the type was
    given.  So with a type but no extents on the command line the
    extents stay 0 and [setupWindows] does not try the raw reader. *)
Theorem guess_needs_a_raw_name_and_nothing_given (g g' : Globals) :
  guessFromFileName g = Some g' →
  (g_filename g' = g_filename g ∧ g_voxelRange g' = g_voxelRange g
   ∧ g_laclutfile g' = g_laclutfile g ∧ g_laclutid g' = g_laclutid g)
  ∧ (getExt (g_filename g) ≠ Some ".raw" ∨ g_dimX g ≠ 0%Z ∨ g_dimY g ≠ 0%Z
     ∨ g_dimZ g ≠ 0%Z ∨ g_bytesPerCell g ≠ 0%N → g' = g)
  ∧ (g_bytesPerCell g ≠ 0%N → g_dimX g = 0%Z → rawOpens g' = false).
Proof.
  unfold guessFromFileName. intros H.
  destruct (getExt (g_filename g)) as [ext|] eqn:E; [|discriminate H].
  cbn in H.
  assert ((getExt (g_filename g) ≠ Some ".raw" ∨ g_dimX g ≠ 0%Z ∨ g_dimY g ≠ 0%Z
           ∨ g_dimZ g ≠ 0%Z ∨ g_bytesPerCell g ≠ 0%N) → g' = g) as Hsame.
  { intros Hc.
    destruct (String.eqb_spec ext ".raw") as [->|Hext]; cbn [andb] in H;
      [|congruence].
    unfold truthy in H.
    destruct (Z.eqb_spec (g_dimX g) 0); cbn [negb andb] in H; [|congruence].
    destruct (Z.eqb_spec (g_dimY g) 0); cbn [negb andb] in H; [|congruence].
    destruct (Z.eqb_spec (g_dimZ g) 0); cbn [negb andb] in H; [|congruence].
    destruct (N.eqb_spec (g_bytesPerCell g) 0); [|congruence].
    rewrite E in Hc. destruct Hc as [? | [? | [? | [? | ?]]]]; congruence. }
  rewrite E in Hsame. split; [|split; [exact Hsame|]].
  - destruct (String.eqb ext ".raw" && negb (truthy (g_dimX g))
              && negb (truthy (g_dimY g)) && negb (truthy (g_dimZ g))
              && (g_bytesPerCell g =? 0)%N); [|by injection H as <-].
    pose proof (guessLoop_keeps (string_split (g_filename g) "_") g)
      as (Hf & Hr & Hl & Hi).
    destruct (g_bytesPerCell (guessLoop _ g) =? 0)%N; injection H as <-; cbn;
      rewrite ?Hf, ?Hr, ?Hl, ?Hi; done.
  - intros Hb Hx. rewrite (Hsame ltac:(tauto)).
    unfold rawOpens, truthy. rewrite Hx. reflexivity.
Qed.

(** X8.  When the guess runs (extension [.raw], nothing given): a name
    none of whose parts names a width is taken as 4 bytes per cell, and
    in any case the width is not 0 afterwards; a name none of whose
    parts names the extents leaves them 0, so that [setupWindows] does
    not try the raw reader. *)
Theorem guess_defaults (g g' : Globals) :
  getExt (g_filename g) = Some ".raw" →
  g_dimX g = 0%Z → g_dimY g = 0%Z → g_dimZ g = 0%Z → g_bytesPerCell g = 0%N →
  guessFromFileName g = Some g' →
  g_bytesPerCell g' ≠ 0%N
  ∧ ((∀ tok, tok ∈ string_split (g_filename g) "_" →
        sscanf_int tok = None ∧ sscanf_uint tok = None) →
     g_bytesPerCell g' = 4%N)
  ∧ ((∀ tok, tok ∈ string_split (g_filename g) "_" → sscanf_dims tok = None) →
     g_dimX g' = 0%Z ∧ g_dimY g' = 0%Z ∧ g_dimZ g' = 0%Z ∧ rawOpens g' = false).
Proof.
  intros E Hx Hy Hz Hb. unfold guessFromFileName. rewrite E. cbn [mbind option_bind].
  unfold truthy at 1 2 3. rewrite Hx, Hy, Hz, Hb. cbn [String.eqb Ascii.eqb Bool.eqb
    Z.eqb N.eqb negb andb].
  set (gl := guessLoop (string_split (g_filename g) "_") g).
  intros H. split; [|split].
  - destruct (N.eqb_spec (g_bytesPerCell gl) 0); injection H as <-; cbn; done.
  - intros Hw. pose proof (guessLoop_no_width _ g Hw) as Hk. fold gl in Hk.
    rewrite Hb in Hk. rewrite Hk in H. cbn in H. injection H as <-. reflexivity.
  - intros Hd. pose proof (guessLoop_no_dims _ g Hd) as (Hkx & Hky & Hkz).
    fold gl in Hkx, Hky, Hkz. rewrite Hx in Hkx. rewrite Hy in Hky. rewrite Hz in Hkz.
    assert (g_dimX g' = 0%Z ∧ g_dimY g' = 0%Z ∧ g_dimZ g' = 0%Z) as (Hx' & Hy' & Hz').
    { destruct (g_bytesPerCell gl =? 0)%N; injection H as <-; cbn; done. }
    repeat split; [exact Hx' | exact Hy' | exact Hz' |].
    unfold rawOpens, truthy. rewrite Hx'. reflexivity.
Qed.

End GuessFacts.

Section GuessRuns.
Local Open Scope string_scope.

Lemma guess_needs_a_raw_name_witness :
  let g := mkGlobals "grid_4x4x4.raw" 0 0 0 1 (0%float, 0%float) EmptyString 0 in
  guessFromFileName (LC := DemoLibc.libc) g = Some g
  ∧ rawOpens (VS := Demo.sources) g = false.
Proof.
  split; [reflexivity|].
  apply (proj2 (proj2 (guess_needs_a_raw_name_and_nothing_given
    (VS := Demo.sources) (LC := DemoLibc.libc)
    (mkGlobals "grid_4x4x4.raw" 0 0 0 1 (0%float, 0%float) EmptyString 0)
    (mkGlobals "grid_4x4x4.raw" 0 0 0 1 (0%float, 0%float) EmptyString 0)
    eq_refl))); [discriminate | reflexivity].
Defined.

Lemma guess_defaults_witness :
  guessFromFileName (LC := DemoLibc.libc)
    (with_filename "grid_4x4x4_uint8.raw" initialGlobals)
  = Some (mkGlobals "grid_4x4x4_uint8.raw" 4 4 4 1 (0%float, 0%float) EmptyString 0)
  ∧ ∃ g', guessFromFileName (LC := DemoLibc.libc)
            (with_filename "grid_4x4x4.raw" initialGlobals) = Some g'
     ∧ g_bytesPerCell g' = 4%N.
Proof.
  split; [vm_compute; reflexivity|].
  eexists. split; [vm_compute; reflexivity|].
  apply (proj1 (proj2 (guess_defaults (VS := Demo.sources) (LC := DemoLibc.libc)
    (with_filename "grid_4x4x4.raw" initialGlobals) _
    eq_refl eq_refl eq_refl eq_refl eq_refl eq_refl))).
  intros tok Htok. vm_compute in Htok.
  apply list_elem_of_In in Htok. cbn in Htok.
  destruct Htok as [<- | [<- | []]]; split; reflexivity.
Defined.

End GuessRuns.

Section StatusFacts.

(** X9.  The status callback reports every fatal error, error and
    warning with its source and message, whatever [userData] is, and
    only a fatal error ends the process (status 1); performance
    warnings, information and debug messages are printed only when
    [userData] points to [true], and a null [userData] counts as
    [false]. *)
Theorem statusFunc_reports_problems_always
    (userData : option bool) (source : Object)
    (severity : ANARIStatusSeverity) (message : string) :
  (isProblem severity = true →
     (∃ tag, (statusFunc userData source severity message).1 =
               Some (mkStatusLine tag source message))
     ∧ statusFunc userData source severity message =
       statusFunc None source severity message)
  ∧ (isProblem severity = false →
     (statusFunc userData source severity message).2 = Returns tt
     ∧ (is_Some (statusFunc userData source severity message).1 →
        userData = Some true))
  ∧ ((statusFunc userData source severity message).2 = Exits 1 ↔
     severity = ANARI_SEVERITY_FATAL_ERROR).
Proof.
  split; [|split].
  - destruct severity; try discriminate; intros _; (split; [eexists|]); reflexivity.
  - destruct severity, userData as [[|]|]; try discriminate; intros _; cbn;
      (split; [reflexivity|]); intros [x Hx]; (reflexivity || discriminate Hx).
  - destruct severity, userData as [[|]|]; cbn; split; intros H;
      (reflexivity || discriminate H).
Qed.

Lemma statusFunc_witness :
  (∃ tag, (statusFunc (Some false) 7%N ANARI_SEVERITY_WARNING "slow path").1 =
            Some (mkStatusLine tag 7%N "slow path"))
  ∧ statusFunc (Some false) 7%N ANARI_SEVERITY_WARNING "slow path" =
    statusFunc None 7%N ANARI_SEVERITY_WARNING "slow path".
Proof.
  apply (proj1 (statusFunc_reports_problems_always (Some false) 7%N
                  ANARI_SEVERITY_WARNING "slow path")).
  reflexivity.
Defined.

End StatusFacts.

Section SceneFacts.
Context `{VS : VoxelSources}.
Local Open Scope N_scope.

(** *** Which reader serves the data *)

Lemma setupWindows_staged (scalar0 : Object) (g : Globals) :
  exec (setupWindows scalar0) (start g) =
  exec setupVolume
    (if rawOpens g then
       exec (setupField scalar0 (g_dimX g) (g_dimY g) (g_dimZ g))
         (staged g
            (raw_getField 0 (raw_open (g_filename g) (g_dimX g) (g_dimY g)
               (g_dimZ g) (g_bytesPerCell g) newRAWReader).2).1
            newNiftiReader
            (raw_getField 0 (raw_open (g_filename g) (g_dimX g) (g_dimY g)
               (g_dimZ g) (g_bytesPerCell g) newRAWReader).2).2)
     else if (nifti_open (g_filename g) newNiftiReader).1 then
       exec (setupField scalar0
               (dimX (nifti_getField 0 (startLac g)
                        (nifti_open (g_filename g) newNiftiReader).2).1)
               (dimY (nifti_getField 0 (startLac g)
                        (nifti_open (g_filename g) newNiftiReader).2).1)
               (dimZ (nifti_getField 0 (startLac g)
                        (nifti_open (g_filename g) newNiftiReader).2).1))
         (staged g
            (nifti_getField 0 (startLac g)
               (nifti_open (g_filename g) newNiftiReader).2).1
            (nifti_getField 0 (startLac g)
               (nifti_open (g_filename g) newNiftiReader).2).2
            (rawAfterOpen g))
     else staged g emptyField (nifti_open (g_filename g) newNiftiReader).2
            (rawAfterOpen g)).
Proof.
  destruct g as [name x y z b r lf li].
  unfold rawAfterOpen, rawTried, rawOpens, staged, startLac. run_outer.
  destruct (truthy x && truthy y && truthy z && negb (b =? 0)) eqn:C; cbn [andb].
  - destruct (raw_open name x y z b newRAWReader) as [[|] r1] eqn:O; cbn [negb andb].
    + destruct (raw_getField 0 r1) as [d r2] eqn:G.
      destruct (setupField _ _ _ _ _). reflexivity.
    + destruct (nifti_open name newNiftiReader) as [[|] n1] eqn:P.
      * destruct (nifti_getField 0 _ n1) as [d n2] eqn:G.
        destruct (setupField _ _ _ _ _). reflexivity.
      * reflexivity.
  - destruct (nifti_open name newNiftiReader) as [[|] n1] eqn:P.
    + destruct (nifti_getField 0 _ n1) as [d n2] eqn:G.
      destruct (setupField _ _ _ _ _). reflexivity.
    + reflexivity.
Qed.

(** X10.  [setupWindows] serves the volume from the raw reader whenever
    that reader opens, and then never touches the medical-image reader;
    it does not call the raw reader at all unless the three extents and
    the byte width are all non-zero; otherwise the medical-image reader
    is opened, and its field is read through the lookup-table catalog
    [setupWindows] has just loaded.  When neither opens, [m_state.field]
    stays null and only the world, a volume and its three arrays
    exist. *)
Theorem raw_reader_takes_precedence (g : Globals) (scalar0 : Object) :
  let s := exec (setupWindows scalar0) (start g) in
  let opened := raw_open (g_filename g) (g_dimX g) (g_dimY g) (g_dimZ g)
                  (g_bytesPerCell g) newRAWReader in
  let nifti := nifti_open (g_filename g) newNiftiReader in
  lacReader (m_state s) = startLac g
  ∧ (rawTried g = false →
       rawOpens g = false ∧ rawReader (m_state s) = newRAWReader)
  ∧ (rawOpens g = true →
       niftiReader (m_state s) = newNiftiReader
       ∧ sdata (m_state s) = (raw_getField 0 opened.2).1
       ∧ rawReader (m_state s) = (raw_getField 0 opened.2).2
       ∧ field (m_state s) = 2)
  ∧ (rawOpens g = false → nifti.1 = true →
       sdata (m_state s) = (nifti_getField 0 (startLac g) nifti.2).1
       ∧ niftiReader (m_state s) = (nifti_getField 0 (startLac g) nifti.2).2
       ∧ rawReader (m_state s) = rawAfterOpen g
       ∧ field (m_state s) = 2)
  ∧ (rawOpens g = false → nifti.1 = false →
       sdata (m_state s) = emptyField
       ∧ niftiReader (m_state s) = nifti.2
       ∧ field (m_state s) = nullptr
       ∧ nextHandle (device s) = 6).
Proof.
  cbv zeta. rewrite setupWindows_staged.
  match goal with |- context [exec setupVolume ?m] =>
    destruct (setupVolume_frame m) as (-> & _ & -> & _) end.
  split; [|split; [|split; [|split]]].
  - destruct (rawOpens g); [|destruct (nifti_open _ _).1].
    + pose proof (setupField_frame scalar0 (g_dimX g) (g_dimY g) (g_dimZ g)
        (staged g (raw_getField 0 (raw_open (g_filename g) (g_dimX g) (g_dimY g)
               (g_dimZ g) (g_bytesPerCell g) newRAWReader).2).1
            newNiftiReader
            (raw_getField 0 (raw_open (g_filename g) (g_dimX g) (g_dimY g)
               (g_dimZ g) (g_bytesPerCell g) newRAWReader).2).2))
        as (_ & _ & _ & -> & _). reflexivity.
    + match goal with |- context [exec (setupField ?j ?a ?b ?c) ?m] =>
        pose proof (setupField_frame j a b c m) as (_ & _ & _ & -> & _) end.
      reflexivity.
    + reflexivity.
  - intros Ht. assert (rawOpens g = false) as Hr.
    { unfold rawOpens. unfold rawTried in Ht. rewrite Ht. reflexivity. }
    split; [exact Hr|]. rewrite Hr. unfold rawAfterOpen. rewrite Ht.
    destruct (nifti_open _ _).1.
    + match goal with |- context [exec (setupField ?j ?a ?b ?c) ?m] =>
        pose proof (setupField_frame j a b c m) as (_ & _ & _ & _ & _ & -> & _) end.
      reflexivity.
    + reflexivity.
  - intros ->.
    match goal with |- context [exec (setupField ?j ?a ?b ?c) ?m] =>
      pose proof (setupField_frame j a b c m)
        as (_ & -> & -> & _ & -> & -> & _) end.
    repeat split.
  - intros -> ->.
    match goal with |- context [exec (setupField ?j ?a ?b ?c) ?m] =>
      pose proof (setupField_frame j a b c m)
        as (_ & -> & -> & _ & -> & -> & _) end.
    repeat split.
  - intros -> ->. repeat split.
Qed.

(** *** Invariants of a build, step by step *)

(** An invariant of [staged], kept by [reload], [setupField] and
    [setupVolume] on well-formed states, holds in every reachable
    state. *)
Lemma reachable_ind_steps (P : Machine → Prop) :
  (∀ g sd ni raw, P (staged g sd ni raw)) →
  (∀ id s, wf s → P s → P (reload id s)) →
  (∀ j n1 n2 n3 s, wf s → P s → P (exec (setupField j n1 n2 n3) s)) →
  (∀ s, wf s → P s → P (exec setupVolume s)) →
  ∀ s, reachable s → P s.
Proof.
  intros Hst Hre Hf Hv s Hr. induction Hr as [g j | s j id Hr IH].
  - rewrite setupWindows_staged.
    destruct (rawOpens g); [|destruct (nifti_open _ _).1].
    + apply Hv; [auto using wf_setupField, wf_staged|].
      apply Hf; [apply wf_staged | apply Hst].
    + apply Hv; [auto using wf_setupField, wf_staged|].
      apply Hf; [apply wf_staged | apply Hst].
    + apply Hv; [apply wf_staged | apply Hst].
  - rewrite updateLacLut_unfold. cbv zeta.
    pose proof (wf_reload id s (reachable_wf s Hr)) as Hwf.
    apply Hv; [auto using wf_setupField|].
    apply Hf; [exact Hwf|]. apply Hre; [apply reachable_wf; exact Hr | exact IH].
Qed.

Lemma allCommitted_setupField j n1 n2 n3 s :
  allCommitted s → allCommitted (exec (setupField j n1 n2 n3) s).
Proof.
  intros Hc h o Ho. destruct (supported (sdata (m_state s))) eqn:Hs.
  - destruct (setupField_supported j n1 n2 n3 s Hs)
      as (mem & ty & _ & Hn & Hn1 & _ & Hframe).
    destruct (decide (h = nextHandle (device s))) as [->|Hne].
    { rewrite Hn in Ho. injection Ho as <-. reflexivity. }
    destruct (decide (h = nextHandle (device s) + 1)) as [->|Hne1].
    { rewrite Hn1 in Ho. injection Ho as <-. reflexivity. }
    rewrite Hframe in Ho by lia. exact (Hc h o Ho).
  - destruct (setupField_unsupported j n1 n2 n3 s Hs) as (_ & (refs & Hn) & Hframe).
    destruct (decide (h = nextHandle (device s))) as [->|Hne].
    { rewrite Hn in Ho. injection Ho as <-. reflexivity. }
    specialize (Hframe h Hne). rewrite Ho in Hframe.
    destruct (objects (device s) !! h) as [o0|] eqn:E; [|discriminate Hframe].
    injection Hframe as Hk Hp Hq. rewrite Hp, Hq. exact (Hc h o0 E).
Qed.

Lemma allCommitted_setupVolume s :
  wf s → allCommitted s → allCommitted (exec setupVolume s).
Proof.
  intros (Hw & _) Hc h o Ho.
  pose proof (setupVolume_objects s) as Hobj. cbv zeta in Hobj.
  destruct Hobj as (H0 & H1 & H2 & H3 & Hworld & Hframe); [lia|].
  destruct (decide (h = nextHandle (device s))) as [->|N0].
  { rewrite H0 in Ho. injection Ho as <-. reflexivity. }
  destruct (decide (h = nextHandle (device s) + 1)) as [->|N1].
  { rewrite H1 in Ho. injection Ho as <-. reflexivity. }
  destruct (decide (h = nextHandle (device s) + 2)) as [->|N2].
  { rewrite H2 in Ho. injection Ho as <-. reflexivity. }
  destruct (decide (h = nextHandle (device s) + 3)) as [->|N3].
  { rewrite H3 in Ho. injection Ho as <-. reflexivity. }
  destruct (decide (h = world (m_state s))) as [->|Nw].
  { rewrite Hworld in Ho.
    destruct (objects (device s) !! world (m_state s)); [|discriminate Ho].
    injection Ho as <-. reflexivity. }
  rewrite Hframe in Ho by (assumption || lia). exact (Hc h o Ho).
Qed.

Lemma allCommitted_staged g sd ni raw : allCommitted (staged g sd ni raw).
Proof.
  intros h o. unfold staged; cbn. intros Ho.
  destruct (decide (h = 1)) as [->|Hne].
  - rewrite lookup_insert_eq in Ho. injection Ho as <-. reflexivity.
  - rewrite lookup_insert_ne in Ho by lia. rewrite lookup_empty in Ho.
    discriminate Ho.
Qed.

(** X11.  Between two builds no object has a parameter set but not
    committed: whatever the readers return, and also when a field is
    built over data of an unsupported width, every parameter the scene
    code sets is committed before the build ends. *)
Theorem every_parameter_set_is_committed (s : Machine) :
  reachable s →
  ∀ h name, pendingParam (device s) h name = committedParam (device s) h name.
Proof.
  intros Hr h name.
  assert (allCommitted s) as Hc.
  { revert s Hr. apply reachable_ind_steps.
    - apply allCommitted_staged.
    - intros id s0 _ H. exact H.
    - intros j n1 n2 n3 s0 _. apply allCommitted_setupField.
    - apply allCommitted_setupVolume. }
  unfold pendingParam, committedParam.
  destruct (objects (device s) !! h) as [o|] eqn:E; [|reflexivity].
  cbn. rewrite (Hc h o E). reflexivity.
Qed.

(** *** Handles *)

Lemma dense_staged g sd ni raw : dense (staged g sd ni raw).
Proof.
  intros h. unfold staged; cbn. destruct (decide (h = 1)) as [->|Hne].
  - rewrite lookup_insert_eq. split; [lia | eauto].
  - rewrite lookup_insert_ne by lia. rewrite lookup_empty.
    split; [intros [x Hx]; discriminate Hx | lia].
Qed.

Lemma dense_setupField j n1 n2 n3 s :
  wf s → dense s → dense (exec (setupField j n1 n2 n3) s).
Proof.
  intros (Hw & _) Hd h.
  pose proof (setupField_frame j n1 n2 n3 s) as (_ & _ & _ & _ & _ & _ & _ & En).
  cbv zeta in En. rewrite En.
  destruct (supported (sdata (m_state s))) eqn:Hs.
  - destruct (setupField_supported j n1 n2 n3 s Hs)
      as (mem & ty & _ & Hn & Hn1 & _ & Hframe).
    destruct (decide (h = nextHandle (device s))) as [->|Hne].
    { rewrite Hn. split; [lia | eauto]. }
    destruct (decide (h = nextHandle (device s) + 1)) as [->|Hne1].
    { rewrite Hn1. split; [lia | eauto]. }
    rewrite Hframe by lia. rewrite (Hd h). lia.
  - destruct (setupField_unsupported j n1 n2 n3 s Hs) as (_ & (refs & Hn) & Hframe).
    destruct (decide (h = nextHandle (device s))) as [->|Hne].
    { rewrite Hn. split; [lia | eauto]. }
    rewrite <- (fmap_is_Some shape), (Hframe h Hne), fmap_is_Some, (Hd h). lia.
Qed.

Lemma dense_setupVolume s : wf s → dense s → dense (exec setupVolume s).
Proof.
  intros (Hw & _ & o & Ho & _) Hd h.
  pose proof (setupVolume_frame s) as (_ & _ & En & _). rewrite En.
  pose proof (setupVolume_objects s) as Hobj. cbv zeta in Hobj.
  destruct Hobj as (H0 & H1 & H2 & H3 & Hworld & Hframe); [lia|].
  destruct (decide (h = nextHandle (device s))) as [->|N0].
  { rewrite H0. split; [lia | eauto]. }
  destruct (decide (h = nextHandle (device s) + 1)) as [->|N1].
  { rewrite H1. split; [lia | eauto]. }
  destruct (decide (h = nextHandle (device s) + 2)) as [->|N2].
  { rewrite H2. split; [lia | eauto]. }
  destruct (decide (h = nextHandle (device s) + 3)) as [->|N3].
  { rewrite H3. split; [lia | eauto]. }
  destruct (decide (h = world (m_state s))) as [->|Nw].
  { rewrite Hworld, Ho. split; [lia | eauto]. }
  rewrite Hframe by (assumption || lia). rewrite (Hd h). lia.
Qed.

Lemma reachable_dense s : reachable s → dense s.
Proof.
  revert s. apply reachable_ind_steps.
  - apply dense_staged.
  - intros id s _ H. exact H.
  - intros j n1 n2 n3 s. apply dense_setupField.
  - apply dense_setupVolume.
Qed.

(** *** References *)

Lemma createdFields_app l1 l2 :
  createdFields (l1 ++ l2) = createdFields l1 ++ createdFields l2.
Proof. apply omap_app. Qed.

Lemma setupField_createdFields j n1 n2 n3 s :
  createdFields (calls (device (exec (setupField j n1 n2 n3) s))) =
  createdFields (calls (device s)) ++ [nextHandle (device s)].
Proof.
  destruct (supported (sdata (m_state s))) eqn:Hs.
  - destruct (setupField_supported j n1 n2 n3 s Hs)
      as (mem & ty & _ & _ & _ & -> & _).
    rewrite createdFields_app. reflexivity.
  - destruct (setupField_unsupported j n1 n2 n3 s Hs) as (-> & _).
    rewrite createdFields_app. reflexivity.
Qed.

Lemma setupVolume_createdFields s :
  createdFields (calls (device (exec setupVolume s))) =
  createdFields (calls (device s)).
Proof.
  destruct (setupVolume_frame s) as (_ & _ & _ & ->).
  rewrite createdFields_app. unfold volumeCalls. cbn. apply app_nil_r.
Qed.

Lemma refsGood_staged g sd ni raw : refsGood (staged g sd ni raw).
Proof.
  unfold refsGood, staged; cbn. split; [|split; [|split]].
  - intros h o Ho. destruct (decide (h = 1)) as [->|Hne].
    + rewrite lookup_insert_eq in Ho. injection Ho as <-.
      rewrite bool_decide_eq_true_2; [reflexivity | left; reflexivity].
    + rewrite lookup_insert_ne in Ho by lia. rewrite lookup_empty in Ho.
      discriminate Ho.
  - intros f Hf. apply elem_of_nil in Hf. destruct Hf.
  - apply NoDup_nil_2.
  - left. split; reflexivity.
Qed.

Lemma refsGood_setupField j n1 n2 n3 s :
  wf s → supported (sdata (m_state s)) = true → refsGood s →
  refsGood (exec (setupField j n1 n2 n3) s).
Proof.
  intros (Hw & _) Hs (Hrc & Hb & Hnd & Hlast).
  pose proof (setupField_frame j n1 n2 n3 s) as (Ew & Ef & _ & _ & _ & _ & _ & En).
  cbv zeta in Ew, Ef, En. rewrite Hs in En.
  destruct (setupField_supported j n1 n2 n3 s Hs)
    as (mem & ty & _ & Hn & Hn1 & _ & Hframe).
  unfold refsGood. rewrite setupField_createdFields, Ew, Ef, En.
  split; [|split; [|split]].
  - intros h o Ho.
    destruct (decide (h = nextHandle (device s))) as [->|Hne].
    { rewrite Hn in Ho. injection Ho as <-.
      rewrite bool_decide_eq_true_2; [reflexivity|].
      right. apply elem_of_app. right. apply list_elem_of_singleton. reflexivity. }
    destruct (decide (h = nextHandle (device s) + 1)) as [->|Hne1].
    { rewrite Hn1 in Ho. injection Ho as <-.
      rewrite bool_decide_eq_false_2; [reflexivity|].
      intros [E | E]; [lia|].
      apply elem_of_app in E as [E | E].
      - apply Hb in E. lia.
      - apply list_elem_of_singleton in E. lia. }
    rewrite Hframe in Ho by lia. rewrite (Hrc h o Ho).
    rewrite (bool_decide_ext
               (h = world (m_state s)
                ∨ h ∈ createdFields (calls (device s)) ++ [nextHandle (device s)])
               (h = world (m_state s) ∨ h ∈ createdFields (calls (device s))));
      [reflexivity|].
    rewrite elem_of_app, list_elem_of_singleton.
    split; [|intros [E | E]; [left; exact E | right; left; exact E]].
    intros [E | [E | E]]; [left; exact E | right; exact E | contradiction].
  - intros f Hf. apply elem_of_app in Hf as [Hf | Hf].
    + apply Hb in Hf. lia.
    + apply list_elem_of_singleton in Hf. lia.
  - apply NoDup_app. split; [exact Hnd|]. split; [|apply NoDup_singleton].
    intros f Hf Hf'. apply list_elem_of_singleton in Hf'. apply Hb in Hf. lia.
  - right. apply last_snoc.
Qed.

Lemma refsGood_setupVolume s : wf s → refsGood s → refsGood (exec setupVolume s).
Proof.
  intros (Hw & _) (Hrc & Hb & Hnd & Hlast).
  pose proof (setupVolume_frame s) as (Em & _ & En & _).
  pose proof (setupVolume_objects s) as Hobj. cbv zeta in Hobj.
  destruct Hobj as (H0 & H1 & H2 & H3 & Hworld & Hframe); [lia|].
  unfold refsGood. rewrite setupVolume_createdFields, Em, En.
  assert (∀ k o, objects (device (exec setupVolume s)) !! (nextHandle (device s) + k) = Some o →
                 refCount o = 0 →
                 refCount o =
                   if bool_decide (nextHandle (device s) + k = world (m_state s)
                                   ∨ nextHandle (device s) + k
                                       ∈ createdFields (calls (device s)))
                   then 1 else 0) as Hnew.
  { intros k o _ ->. rewrite bool_decide_eq_false_2; [reflexivity|].
    intros [E | E]; [lia|]. apply Hb in E. lia. }
  split; [|split; [|split]].
  - intros h o Ho.
    destruct (decide (h = nextHandle (device s))) as [->|N0].
    { rewrite <- (N.add_0_r (nextHandle (device s))). apply Hnew.
      - rewrite N.add_0_r. exact Ho.
      - rewrite H0 in Ho. injection Ho as <-. reflexivity. }
    destruct (decide (h = nextHandle (device s) + 1)) as [->|N1].
    { apply Hnew; [exact Ho|]. rewrite H1 in Ho. injection Ho as <-. reflexivity. }
    destruct (decide (h = nextHandle (device s) + 2)) as [->|N2].
    { apply Hnew; [exact Ho|]. rewrite H2 in Ho. injection Ho as <-. reflexivity. }
    destruct (decide (h = nextHandle (device s) + 3)) as [->|N3].
    { apply Hnew; [exact Ho|]. rewrite H3 in Ho. injection Ho as <-. reflexivity. }
    destruct (decide (h = world (m_state s))) as [->|Nw].
    { rewrite Hworld in Ho.
      destruct (objects (device s) !! world (m_state s)) as [o0|] eqn:E;
        [|discriminate Ho].
      injection Ho as <-. exact (Hrc _ o0 E). }
    assert (h < nextHandle (device s) ∨ nextHandle (device s) + 4 ≤ h) as Hh by lia.
    rewrite (Hframe h Nw Hh) in Ho. exact (Hrc h o Ho).
  - intros f Hf. apply Hb in Hf. lia.
  - exact Hnd.
  - exact Hlast.
Qed.

Lemma refsGood_built j n1 n2 n3 m0 :
  wf m0 → refsGood m0 →
  successful (exec setupVolume (exec (setupField j n1 n2 n3) m0)) = true →
  refsGood (exec setupVolume (exec (setupField j n1 n2 n3) m0)).
Proof.
  intros Hwf Hg Hs.
  apply refsGood_setupVolume; [apply wf_setupField; exact Hwf|].
  apply refsGood_setupField; [exact Hwf | | exact Hg].
  eapply successful_built; [exact Hwf | exact Hs].
Qed.

Lemma refsGood_setup g j :
  successful (exec (setupWindows j) (start g)) = true →
  refsGood (exec (setupWindows j) (start g)).
Proof.
  rewrite setupWindows_staged.
  destruct (rawOpens g); [|destruct (nifti_open _ _).1]; intros Hs.
  - apply refsGood_built; [apply wf_staged | apply refsGood_staged | exact Hs].
  - apply refsGood_built; [apply wf_staged | apply refsGood_staged | exact Hs].
  - apply refsGood_setupVolume; [apply wf_staged | apply refsGood_staged].
Qed.

Lemma refsGood_update j id s :
  reachable s → refsGood s →
  successful (exec (updateLacLut j id) s) = true →
  refsGood (exec (updateLacLut j id) s).
Proof.
  intros Hr Hg. rewrite updateLacLut_unfold. cbv zeta. intros Hs.
  apply refsGood_built;
    [apply wf_reload, reachable_wf, Hr | exact Hg | exact Hs].
Qed.

Lemma createdFields_update j id s :
  createdFields (calls (device (exec (updateLacLut j id) s))) =
  createdFields (calls (device s)) ++ [nextHandle (device s)].
Proof.
  rewrite updateLacLut_unfold. cbv zeta.
  rewrite setupVolume_createdFields, setupField_createdFields. reflexivity.
Qed.

Lemma createdFields_setup g j :
  createdFields (calls (device (exec (setupWindows j) (start g)))) =
  if (field (m_state (exec (setupWindows j) (start g))) =? nullptr)
  then [] else [2].
Proof.
  rewrite setupWindows_staged.
  match goal with |- context [exec setupVolume ?m] =>
    rewrite (setupVolume_createdFields m);
    destruct (setupVolume_frame m) as (-> & _) end.
  destruct (rawOpens g); [|destruct (nifti_open _ _).1].
  - match goal with |- context [exec (setupField ?j ?a ?b ?c) ?m] =>
      rewrite (setupField_createdFields j a b c m);
      pose proof (setupField_frame j a b c m) as (_ & -> & _) end.
    reflexivity.
  - match goal with |- context [exec (setupField ?j ?a ?b ?c) ?m] =>
      rewrite (setupField_createdFields j a b c m);
      pose proof (setupField_frame j a b c m) as (_ & -> & _) end.
    reflexivity.
  - reflexivity.
Qed.

Lemma changes_refs evs : ∀ s,
  reachable s → refsGood s → allSuccessful evs s = true →
  refsGood (changes evs s)
  ∧ length (createdFields (calls (device (changes evs s)))) =
    (length (createdFields (calls (device s))) + length evs)%nat.
Proof.
  induction evs as [|[j id] evs IH]; intros s Hr Hg Hs; cbn [changes length].
  - split; [exact Hg | lia].
  - cbn [allSuccessful] in Hs. apply andb_true_iff in Hs as [_ Hs].
    assert (successful (exec (updateLacLut j id) s) = true) as Hs1.
    { destruct evs as [|[j' id'] evs']; cbn [allSuccessful] in Hs;
        apply andb_true_iff in Hs as [Hs _]; exact Hs. }
    destruct (IH (exec (updateLacLut j id) s)) as (Hg' & Hl').
    + apply reach_update. exact Hr.
    + apply refsGood_update; assumption.
    + exact Hs.
    + split; [exact Hg'|].
      rewrite Hl', createdFields_update, length_app. cbn [length]. lia.
Qed.

Lemma teardown_device s :
  objects (device (exec teardown s)) =
    alter unref (world (m_state s))
      (alter unref (field (m_state s)) (objects (device s)))
  ∧ deviceReleased (device (exec teardown s)) = true
  ∧ calls (device (exec teardown s)) =
      calls (device s) ++ [Release (field (m_state s)); Release (world (m_state s))].
Proof.
  destruct s as [[n objs log rel] [w f sd lac ni raw] g]. run.
  rewrite <- !app_assoc. repeat split.
Qed.

Lemma lookup_alter_dec (f : object → object) (i j : Object)
    (m : gmap Object object) :
  alter f i m !! j = (if bool_decide (j = i) then f else id) <$> m !! j.
Proof.
  destruct (decide (j = i)) as [->|Hne].
  - rewrite bool_decide_eq_true_2 by reflexivity. apply lookup_alter_eq.
  - rewrite bool_decide_eq_false_2 by assumption.
    rewrite lookup_alter_ne by congruence.
    destruct (m !! j); reflexivity.
Qed.

(** What [teardown] leaves of the reference count of an object. *)
Lemma teardown_refs s h o :
  objects (device (exec teardown s)) !! h = Some o →
  ∃ o0, objects (device s) !! h = Some o0
    ∧ refCount o =
      (if bool_decide (h = world (m_state s)) then N.pred else id)
        ((if bool_decide (h = field (m_state s)) then N.pred else id)
           (refCount o0)).
Proof.
  destruct (teardown_device s) as (-> & _). rewrite !lookup_alter_dec.
  destruct (objects (device s) !! h) as [o0|] eqn:E; intros Ho;
    [|discriminate Ho].
  exists o0. split; [reflexivity|].
  injection Ho as <-.
  destruct (bool_decide (h = world (m_state s)));
    destruct (bool_decide (h = field (m_state s))); reflexivity.
Qed.

Lemma reachable_changes evs : ∀ s, reachable s → reachable (changes evs s).
Proof.
  induction evs as [|[j id] evs IH]; intros s Hr; cbn [changes];
    [exact Hr | apply IH, reach_update, Hr].
Qed.

(** X13.  What [teardown] gives back.  After a session in which every
    build was successful, [teardown] releases the device and drops the
    application's reference to the world and to the field of the latest
    build only: every field of an earlier build still carries its
    reference, so each change of the lookup table leaves one field that
    is never released.  Every other object carries no reference of the
    application, and one field was created per build that had data. *)
Theorem teardown_releases_only_the_latest_field
    (g : Globals) (scalar0 : Object) (evs : list (Object * N)) :
  allSuccessful evs (exec (setupWindows scalar0) (start g)) = true →
  let s := session g scalar0 evs in
  let t := exec teardown s in
  let fields := createdFields (calls (device s)) in
  deviceReleased (device t) = true
  ∧ length fields =
      (length evs +
       if (field (m_state (exec (setupWindows scalar0) (start g))) =? nullptr)%N
       then 0 else 1)%nat
  ∧ (∀ f, f ∈ fields →
       refsOf (device t) f =
         Some (if bool_decide (f = field (m_state s)) then 0 else 1))
  ∧ (∀ h o, objects (device t) !! h = Some o → h ∉ fields → refCount o = 0).
Proof.
  intros Hall. cbv zeta. unfold session.
  assert (successful (exec (setupWindows scalar0) (start g)) = true) as Hs0.
  { destruct evs as [|[j' id'] evs']; cbn [allSuccessful] in Hall;
      apply andb_true_iff in Hall as [Hs _]; exact Hs. }
  pose proof (reach_setup g scalar0) as Hr0.
  destruct (changes_refs evs _ Hr0 (refsGood_setup g scalar0 Hs0) Hall)
    as ((Hrc & Hb & _ & _) & Hlen).
  pose proof (reachable_changes evs _ Hr0) as Hr.
  pose proof (reachable_dense _ Hr) as Hd.
  pose proof (reachable_wf _ Hr) as (Hw & _).
  set (s := changes evs (exec (setupWindows scalar0) (start g))) in *.
  split; [apply teardown_device|].
  split.
  { rewrite Hlen, createdFields_setup.
    destruct (field _ =? nullptr); cbn [length]; lia. }
  split.
  - intros f Hf. pose proof (Hb f Hf) as Hbf.
    destruct (proj2 (Hd f)) as [o0 Ho0]; [lia|].
    unfold refsOf. destruct (teardown_device s) as (-> & _).
    rewrite !lookup_alter_dec, Ho0. cbn [fmap option_fmap option_map].
    rewrite (bool_decide_eq_false_2 (f = world (m_state s))) by lia.
    pose proof (Hrc f o0 Ho0) as Hc.
    rewrite bool_decide_eq_true_2 in Hc by (right; exact Hf).
    destruct (bool_decide (f = field (m_state s))); cbn [id refCount unref];
      rewrite Hc; reflexivity.
  - intros h o Ho Hh.
    destruct (teardown_refs s h o Ho) as (o0 & Ho0 & ->).
    pose proof (Hrc h o0 Ho0) as Hc.
    destruct (decide (h = world (m_state s))) as [Ew|Nw].
    + rewrite bool_decide_eq_true_2 in Hc by (left; exact Ew).
      rewrite (bool_decide_eq_true_2 _ Ew), Hc.
      destruct (bool_decide (h = field (m_state s))); reflexivity.
    + rewrite bool_decide_eq_false_2 in Hc by (intros [E | E]; contradiction).
      rewrite (bool_decide_eq_false_2 _ Nw), Hc.
      destruct (bool_decide (h = field (m_state s))); reflexivity.
Qed.

End SceneFacts.

Section SceneRuns.
Import Demo.
Local Open Scope N_scope.

Lemma raw_reader_takes_precedence_witness :
  let s := exec (setupWindows 0) (start (g_raw 1)) in
  let opened := raw_open (g_filename (g_raw 1)) (g_dimX (g_raw 1))
                  (g_dimY (g_raw 1)) (g_dimZ (g_raw 1))
                  (g_bytesPerCell (g_raw 1)) newRAWReader in
  niftiReader (m_state s) = newNiftiReader
  ∧ sdata (m_state s) = (raw_getField 0 opened.2).1
  ∧ rawReader (m_state s) = (raw_getField 0 opened.2).2
  ∧ field (m_state s) = 2.
Proof.
  apply (proj1 (proj2 (proj2 (raw_reader_takes_precedence (g_raw 1) 0)))).
  vm_compute. reflexivity.
Defined.

Lemma every_parameter_set_is_committed_witness :
  pendingParam (device s_ct) 4 "valueRange" =
  committedParam (device s_ct) 4 "valueRange".
Proof.
  apply (every_parameter_set_is_committed s_ct).
  exact (reach_setup g_nifti 0).
Defined.

Lemma teardown_releases_only_the_latest_field_witness :
  let s := session g_nifti 0 [(0, 1); (0, 0)] in
  let t := exec teardown s in
  let fields := createdFields (calls (device s)) in
  deviceReleased (device t) = true
  ∧ length fields =
      (length [(0, 1); (0, 0)] +
       if (field (m_state (exec (setupWindows 0) (start g_nifti))) =? nullptr)%N
       then 0 else 1)%nat
  ∧ (∀ f, f ∈ fields →
       refsOf (device t) f =
         Some (if bool_decide (f = field (m_state s)) then 0 else 1))
  ∧ (∀ h o, objects (device t) !! h = Some o → h ∉ fields → refCount o = 0).
Proof.
  apply (teardown_releases_only_the_latest_field g_nifti 0 [(0, 1); (0, 0)]).
  vm_compute. reflexivity.
Defined.

End SceneRuns.
